(** * FUNKWEB: the looping tunnel animation (src/src/TunnelAnimation.js)

    A shallow embedding of the [TunnelAnimation] class and of the part of
    its host (three.js objects, the window's listener table, the animation
    frame queue) that the class reads and writes.

    Numbers.  JavaScript numbers are modelled as exact rationals [Q]:
    rounding, infinities and NaN are outside the model, so every statement
    about numeric values is a statement about the arithmetic the code
    writes down, for configurations whose divisors are non-zero.  The
    counts of the configuration ([segments], [rings], [bufferSize],
    [segmentDetail]) are natural numbers.  [Math.cos], [Math.sin],
    [Math.pow] and [Math.PI] are an interface ([JSMath]); no theorem
    depends on the values they return.

    Objects.  Geometries and materials live in two stores and are referred
    to by index, so that two drawables holding the same material are
    visibly aliases of one store cell. *)

From Stdlib Require Import QArith Qabs Qminmax Qround Lqa Lia.
From stdpp Require Import base list.

Local Open Scope Q_scope.

(** ** Numbers *)

(** A loop counter used as a number. *)
Definition num (n : nat) : Q := inject_Z (Z.of_nat n).

(** [a > b] on numbers. *)
Definition gtb (a b : Q) : bool :=
  match a ?= b with Gt => true | _ => false end.

(** The part of the [Math] object the class calls. *)
Class JSMath := {
  Math_PI : Q;
  Math_cos : Q -> Q;
  Math_sin : Q -> Q;
  Math_pow : Q -> Q -> Q
}.

Definition Math_abs : Q -> Q := Qabs.
Definition Math_max : Q -> Q -> Q := Qmax.
Definition Math_min : Q -> Q -> Q := Qmin.

(** ** Configuration (constructor, lines 6-19) *)

Module Config.
Record t := {
  radius : Q;
  segments : nat;
  rings : nat;
  length : Q;
  speed : Q;
  lineWidth : Q;
  baseOpacity : Q;
  color : Z;
  bufferSize : nat;
  segmentDetail : nat
}.
End Config.

(** The [options] argument: any subset of the fields. *)
Module Options.
Record t := {
  radius : option Q;
  segments : option nat;
  rings : option nat;
  length : option Q;
  speed : option Q;
  lineWidth : option Q;
  baseOpacity : option Q;
  color : option Z;
  bufferSize : option nat;
  segmentDetail : option nat
}.
Definition none : t :=
  {| radius := None; segments := None; rings := None; length := None;
     speed := None; lineWidth := None; baseOpacity := None; color := None;
     bufferSize := None; segmentDetail := None |}.
End Options.

Definition defaultConfig : Config.t :=
  {| Config.radius := 10;
     Config.segments := 72;
     Config.rings := 60;
     Config.length := 50;
     Config.speed := 3 # 100;
     Config.lineWidth := 3 # 2;
     Config.baseOpacity := 1 # 2;
     Config.color := 0;
     Config.bufferSize := 2;
     Config.segmentDetail := 256 |}.

(** [Object.assign(this.config, options)]. *)
Definition Object_assign (c : Config.t) (o : Options.t) : Config.t :=
  {| Config.radius := default (Config.radius c) (Options.radius o);
     Config.segments := default (Config.segments c) (Options.segments o);
     Config.rings := default (Config.rings c) (Options.rings o);
     Config.length := default (Config.length c) (Options.length o);
     Config.speed := default (Config.speed c) (Options.speed o);
     Config.lineWidth := default (Config.lineWidth c) (Options.lineWidth o);
     Config.baseOpacity := default (Config.baseOpacity c) (Options.baseOpacity o);
     Config.color := default (Config.color c) (Options.color o);
     Config.bufferSize := default (Config.bufferSize c) (Options.bufferSize o);
     Config.segmentDetail :=
       default (Config.segmentDetail c) (Options.segmentDetail o) |}.

(** The configurations the class is written for: positive sizes and
    counts, so that no divisor is zero. *)
Definition valid_config (c : Config.t) : Prop :=
  0 < Config.radius c /\ 0 < Config.length c /\ 0 < Config.speed c /\
  (0 < Config.segments c)%nat /\ (0 < Config.rings c)%nat /\
  (0 < Config.bufferSize c)%nat /\ (0 < Config.segmentDetail c)%nat.

(** What the motion of the sections needs of a valid configuration: a
    positive length, speed and buffer count. *)
Definition scrolling_config (c : Config.t) : Prop :=
  0 < Config.length c /\ 0 < Config.speed c /\ (0 < Config.bufferSize c)%nat.

(** ** three.js objects *)

Record BufferGeometry := {
  position : list Q;        (* the flat 'position' attribute *)
  itemSize : nat;
  geometry_disposed : nat   (* calls of dispose() *)
}.

Record LineBasicMaterial := {
  m_color : Z;
  transparent : bool;
  opacity : Q;
  linewidth : Q;
  material_disposed : nat   (* calls of dispose() *)
}.

Definition set_opacity (o : Q) (m : LineBasicMaterial) : LineBasicMaterial :=
  {| m_color := m_color m; transparent := transparent m; opacity := o;
     linewidth := linewidth m; material_disposed := material_disposed m |}.

Inductive Kind := Line | LineSegments.

Global Instance Kind_eq_dec : EqDecision Kind.
Proof. solve_decision. Defined.

(** A drawable: its own z position and the store indices of the geometry
    and the material it holds. *)
Record Object3D := {
  kind : Kind;
  position_z : Q;
  geometry : nat;
  material : nat
}.

(** A [THREE.Group]: the section's offset and its children in insertion
    order. *)
Record Group := {
  group_z : Q;
  children : list Object3D
}.

Definition set_group_z (z : Q) (g : Group) : Group :=
  {| group_z := z; children := children g |}.

(** ** createTunnelSection (lines 76-141) *)

Section Builder.
Context {M : JSMath}.

(** Lines 84-91. *)
Definition ringVertices (c : Config.t) : list Q :=
  flat_map (fun i =>
    let theta := (num i / num (Config.segmentDetail c)) * Math_PI * 2 in
    [Math_cos theta * Config.radius c; Math_sin theta * Config.radius c; 0])
    (seq 0 (S (Config.segmentDetail c))).

Definition steps : nat := 200.

(** One pass of the inner loop, lines 117-124. *)
Definition lineVertices_at (c : Config.t) (i : nat) : list Q :=
  let theta := (num i / num (Config.segments c)) * Math_PI * 2 in
  flat_map (fun j =>
    let z := (num j / num steps) * Config.length c - Config.length c / 2 in
    [Math_cos theta * Config.radius c; Math_sin theta * Config.radius c; z])
    (seq 0 (S steps)).

(** Lines 115-125. *)
Definition lineVertices (c : Config.t) : list Q :=
  flat_map (lineVertices_at c) (seq 0 (Config.segments c)).

(** Lines 97-102 and 130-135: both materials are built from the same
    parameters. *)
Definition new_material (c : Config.t) : LineBasicMaterial :=
  {| m_color := Config.color c; transparent := true;
     opacity := Config.baseOpacity c; linewidth := Config.lineWidth c;
     material_disposed := 0 |}.

Definition new_geometry (vs : list Q) : BufferGeometry :=
  {| position := vs; itemSize := 3; geometry_disposed := 0 |}.

(** Lines 104-108: ring [i] holds [ringGeometry] and [ringMaterial]. *)
Definition ring (c : Config.t) (ringGeometry ringMaterial i : nat) : Object3D :=
  {| kind := Line;
     position_z :=
       (num i / num (Config.rings c)) * Config.length c - Config.length c / 2;
     geometry := ringGeometry; material := ringMaterial |}.

(** Line 137: a new drawable sits at the origin of its parent. *)
Definition lines (lineGeometry lineMaterial : nat) : Object3D :=
  {| kind := LineSegments; position_z := 0;
     geometry := lineGeometry; material := lineMaterial |}.

(** The children of a section whose ring geometry and material are the
    store cells [g] and [m], and whose line geometry and material are
    the cells [g'] and [m']. *)
Definition section_children (c : Config.t) (g m g' m' : nat) : list Object3D :=
  map (ring c g m) (seq 0 (S (Config.rings c))) ++ [lines g' m'].

(** The whole method: it allocates two geometries and two materials at
    the end of the stores and returns the group. *)
Definition createTunnelSection (c : Config.t)
    (gs : list BufferGeometry) (ms : list LineBasicMaterial)
    : Group * list BufferGeometry * list LineBasicMaterial :=
  let ringGeometry := List.length gs in
  let gs := gs ++ [new_geometry (ringVertices c)] in
  let ringMaterial := List.length ms in
  let ms := ms ++ [new_material c] in
  let lineGeometry := List.length gs in
  let gs := gs ++ [new_geometry (lineVertices c)] in
  let lineMaterial := List.length ms in
  let ms := ms ++ [new_material c] in
  ({| group_z := 0;
      children :=
        section_children c ringGeometry ringMaterial lineGeometry lineMaterial |},
   gs, ms).
End Builder.

(** ** THREE.Clock

    The clock of the three.js library, with the fields and methods the
    class uses.  [now] is the reading of [performance.now()]. *)

Record Clock := {
  autoStart : bool;
  startTime : Q;
  oldTime : Q;
  elapsedTime : Q;
  running : bool
}.

Definition new_Clock : Clock :=
  {| autoStart := true; startTime := 0; oldTime := 0; elapsedTime := 0;
     running := false |}.

Definition Clock_start (now : Q) (k : Clock) : Clock :=
  {| autoStart := autoStart k; startTime := now; oldTime := now;
     elapsedTime := 0; running := true |}.

(** Returns the delta and the updated clock. *)
Definition Clock_getDelta (now : Q) (k : Clock) : Q * Clock :=
  if autoStart k && negb (running k) then (0, Clock_start now k)
  else if running k then
    let diff := (now - oldTime k) / 1000 in
    (diff, {| autoStart := autoStart k; startTime := startTime k;
              oldTime := now; elapsedTime := elapsedTime k + diff;
              running := running k |})
  else (0, k).

Definition Clock_stop (now : Q) (k : Clock) : Clock :=
  let k := snd (Clock_getDelta now k) in
  {| autoStart := false; startTime := startTime k; oldTime := oldTime k;
     elapsedTime := elapsedTime k; running := false |}.

(** ** The instance and its host *)

(** The function values that reach the host: the two bound methods of
    lines 65-66, the arrow function of lines 70-73, and whatever other
    code registered.  [handleResize] itself writes the camera's aspect
    and the size of the render surface only, which are not modelled; what
    matters below is which function value is which. *)
Inductive Callback :=
  | BoundAnimate
  | BoundHandleResize
  | ResizeArrow
  | Foreign (n : nat).

Global Instance Callback_eq_dec : EqDecision Callback.
Proof. solve_decision. Defined.

Record World := {
  (* fields of [this] *)
  config : Config.t;
  tunnelSections : list Group;
  isAnimating : bool;
  clock : Clock;
  deltaTime : Q;
  lastTime : Q;
  (* three.js objects the instance created *)
  sceneChildren : list nat;            (* sections in the scene, by index *)
  geometries : list BufferGeometry;
  materials : list LineBasicMaterial;
  renderCalls : nat;                   (* renderer.render(...) *)
  rendererDisposed : nat;              (* renderer.dispose() *)
  (* the host *)
  performance_now : Q;
  resizeListeners : list Callback;     (* window's 'resize' listeners *)
  frameRequests : list Callback        (* requestAnimationFrame queue *)
}.

(** Field updates. *)
Definition set_isAnimating (b : bool) (w : World) : World :=
  {| config := config w; tunnelSections := tunnelSections w; isAnimating := b;
     clock := clock w; deltaTime := deltaTime w; lastTime := lastTime w;
     sceneChildren := sceneChildren w; geometries := geometries w;
     materials := materials w; renderCalls := renderCalls w;
     rendererDisposed := rendererDisposed w;
     performance_now := performance_now w;
     resizeListeners := resizeListeners w; frameRequests := frameRequests w |}.

Definition set_clock (k : Clock) (w : World) : World :=
  {| config := config w; tunnelSections := tunnelSections w;
     isAnimating := isAnimating w;
     clock := k; deltaTime := deltaTime w; lastTime := lastTime w;
     sceneChildren := sceneChildren w; geometries := geometries w;
     materials := materials w; renderCalls := renderCalls w;
     rendererDisposed := rendererDisposed w;
     performance_now := performance_now w;
     resizeListeners := resizeListeners w; frameRequests := frameRequests w |}.

Definition set_deltaTime (d : Q) (w : World) : World :=
  {| config := config w; tunnelSections := tunnelSections w;
     isAnimating := isAnimating w;
     clock := clock w; deltaTime := d; lastTime := lastTime w;
     sceneChildren := sceneChildren w; geometries := geometries w;
     materials := materials w; renderCalls := renderCalls w;
     rendererDisposed := rendererDisposed w;
     performance_now := performance_now w;
     resizeListeners := resizeListeners w; frameRequests := frameRequests w |}.

(** The objects a frame or a disposal writes: the sections, the scene's
    children, the two stores and the renderer's counters. *)
Definition set_objects (secs : list Group) (sc : list nat)
    (gs : list BufferGeometry) (ms : list LineBasicMaterial)
    (rc rd : nat) (w : World) : World :=
  {| config := config w; tunnelSections := secs;
     isAnimating := isAnimating w;
     clock := clock w; deltaTime := deltaTime w; lastTime := lastTime w;
     sceneChildren := sc; geometries := gs;
     materials := ms; renderCalls := rc;
     rendererDisposed := rd;
     performance_now := performance_now w;
     resizeListeners := resizeListeners w; frameRequests := frameRequests w |}.

Definition set_performance_now (t : Q) (w : World) : World :=
  {| config := config w; tunnelSections := tunnelSections w;
     isAnimating := isAnimating w;
     clock := clock w; deltaTime := deltaTime w; lastTime := lastTime w;
     sceneChildren := sceneChildren w; geometries := geometries w;
     materials := materials w; renderCalls := renderCalls w;
     rendererDisposed := rendererDisposed w;
     performance_now := t;
     resizeListeners := resizeListeners w; frameRequests := frameRequests w |}.

Definition set_resizeListeners (l : list Callback) (w : World) : World :=
  {| config := config w; tunnelSections := tunnelSections w;
     isAnimating := isAnimating w;
     clock := clock w; deltaTime := deltaTime w; lastTime := lastTime w;
     sceneChildren := sceneChildren w; geometries := geometries w;
     materials := materials w; renderCalls := renderCalls w;
     rendererDisposed := rendererDisposed w;
     performance_now := performance_now w;
     resizeListeners := l; frameRequests := frameRequests w |}.

Definition set_frameRequests (l : list Callback) (w : World) : World :=
  {| config := config w; tunnelSections := tunnelSections w;
     isAnimating := isAnimating w;
     clock := clock w; deltaTime := deltaTime w; lastTime := lastTime w;
     sceneChildren := sceneChildren w; geometries := geometries w;
     materials := materials w; renderCalls := renderCalls w;
     rendererDisposed := rendererDisposed w;
     performance_now := performance_now w;
     resizeListeners := resizeListeners w; frameRequests := l |}.

(** Host calls. *)
Definition requestAnimationFrame (cb : Callback) (w : World) : World :=
  set_frameRequests (frameRequests w ++ [cb]) w.

(** A listener is registered at most once, so removal drops the entry that
    is this very function value, if there is one. *)
Definition removeEventListener (cb : Callback) (w : World) : World :=
  set_resizeListeners (filter (fun x => x <> cb) (resizeListeners w)) w.

Section Methods.
Context {M : JSMath}.

(** *** constructor (lines 4-74) *)

(** One pass of the loop of lines 51-56. *)
Definition add_section (c : Config.t)
    (acc : list Group * list BufferGeometry * list LineBasicMaterial)
    (i : nat) : list Group * list BufferGeometry * list LineBasicMaterial :=
  let '(secs, gs, ms) := acc in
  let '(section, gs, ms) := createTunnelSection c gs ms in
  let section :=
    set_group_z
      (num i * (Config.length c / num (Config.bufferSize c))) section in
  (secs ++ [section], gs, ms).

Definition build_sections (c : Config.t)
    : list Group * list BufferGeometry * list LineBasicMaterial :=
  fold_left (add_section c) (seq 0 (Config.bufferSize c)) ([], [], []).

(** [now] is the host's clock reading and [listeners] the 'resize'
    listeners already on the window.  The camera, the fog and the size of
    the render surface are not modelled. *)
Definition constructor (options : Options.t) (now : Q)
    (listeners : list Callback) : World :=
  let c := Object_assign defaultConfig options in
  let '(secs, gs, ms) := build_sections c in
  {| config := c;
     tunnelSections := secs;
     isAnimating := false;
     clock := new_Clock;
     deltaTime := 0;
     lastTime := 0;
     sceneChildren := seq 0 (List.length secs);
     geometries := gs;
     materials := ms;
     renderCalls := 0;
     rendererDisposed := 0;
     performance_now := now;
     resizeListeners := listeners ++ [ResizeArrow];
     frameRequests := [] |}.

(** *** animate (lines 143-172) *)

(** Lines 163-166: the opacity of a child at distance
    [|childZ + sectionZ|]. *)
Definition opacity_at (c : Config.t) (distanceFromCamera : Q) : Q :=
  Math_max (2 # 10)
    (Math_min (7 # 10)
       (1 - Math_pow (distanceFromCamera / (Config.length c * (7 # 10)))
              (3 # 2))).

Definition fade (c : Config.t) (childZ sectionZ : Q) : Q :=
  let distanceFromCamera := Math_abs (childZ + sectionZ) in
  opacity_at c distanceFromCamera.

(** Line 167, [child.material.opacity = opacity]: a write to the store
    cell the child holds. *)
Definition set_child_opacity (c : Config.t) (sectionZ : Q)
    (ms : list LineBasicMaterial) (child : Object3D)
    : list LineBasicMaterial :=
  alter (set_opacity (fade c (position_z child) sectionZ)) (material child) ms.

(** Lines 162-168. *)
Definition opacity_pass (c : Config.t) (sectionZ : Q)
    (cs : list Object3D) (ms : list LineBasicMaterial)
    : list LineBasicMaterial :=
  fold_left (set_child_opacity c sectionZ) cs ms.

(** Lines 151, 154-159: the new offset of a section at offset [z]. *)
Definition sectionLength (c : Config.t) : Q :=
  Config.length c / num (Config.bufferSize c).

Definition advance (c : Config.t) (z : Q) : Q :=
  let z := z + Config.speed c in
  if gtb z (sectionLength c)
  then - sectionLength c * (num (Config.bufferSize c) - 1)
  else z.

(** Lines 153-169: the sections in array order, the material store
    threaded through. *)
Fixpoint forEach_section (c : Config.t) (secs : list Group)
    (ms : list LineBasicMaterial) : list Group * list LineBasicMaterial :=
  match secs with
  | [] => ([], ms)
  | section :: rest =>
      let section := set_group_z (advance c (group_z section)) section in
      let ms := opacity_pass c (group_z section) (children section) ms in
      let '(rest, ms) := forEach_section c rest ms in
      (section :: rest, ms)
  end.

(** [currentTime] is the timestamp the host passes to a frame callback;
    the body does not read it. *)
Definition animate (currentTime : Q) (w : World) : World :=
  if negb (isAnimating w) then w else
  let w := requestAnimationFrame BoundAnimate w in
  let '(delta, k) := Clock_getDelta (performance_now w) (clock w) in
  let w := set_deltaTime delta (set_clock k w) in
  let '(secs, ms) :=
    forEach_section (config w) (tunnelSections w) (materials w) in
  set_objects secs (sceneChildren w) (geometries w) ms
    (S (renderCalls w)) (rendererDisposed w) w.

(** *** start, stop (lines 184-195) *)

Definition start (w : World) : World :=
  if negb (isAnimating w) then
    let w := set_isAnimating true w in
    let w := set_clock (Clock_start (performance_now w) (clock w)) w in
    animate 0 w
  else w.

Definition stop (w : World) : World :=
  let w := set_isAnimating false w in
  set_clock (Clock_stop (performance_now w) (clock w)) w.

(** *** dispose (lines 197-208) *)

(** Lines 203-204 for one child of a section. *)
Definition dispose_child
    (acc : list BufferGeometry * list LineBasicMaterial) (child : Object3D)
    : list BufferGeometry * list LineBasicMaterial :=
  let '(gs, ms) := acc in
  (alter (fun g => {| position := position g; itemSize := itemSize g;
                      geometry_disposed := S (geometry_disposed g) |})
         (geometry child) gs,
   alter (fun m => {| m_color := m_color m; transparent := transparent m;
                      opacity := opacity m; linewidth := linewidth m;
                      material_disposed := S (material_disposed m) |})
         (material child) ms).

(** Lines 200-206 for the section at index [i]: the group itself has
    neither geometry nor material, so [traverse] acts on the children. *)
Definition dispose_section
    (acc : list nat * (list BufferGeometry * list LineBasicMaterial))
    (isec : nat * Group)
    : list nat * (list BufferGeometry * list LineBasicMaterial) :=
  let '(sc, stores) := acc in
  (filter (fun k => k <> fst isec) sc,
   fold_left dispose_child (children (snd isec)) stores).

Definition dispose (w : World) : World :=
  let w := stop w in
  let w := removeEventListener BoundHandleResize w in
  let '(sc, (gs, ms)) :=
    fold_left dispose_section (imap pair (tunnelSections w))
      (sceneChildren w, (geometries w, materials w)) in
  set_objects (tunnelSections w) sc gs ms (renderCalls w)
    (S (rendererDisposed w)) w.

(** ** The host's events *)

Inductive Event :=
  | CallStart
  | CallStop
  | CallDispose
  | Refresh (timestamp : Q)   (* a display refresh runs the queued callbacks *)
  | Elapse (now : Q).         (* time passes: performance.now() reads [now] *)

(** Only [this.animate] is ever queued by the class; a callback of other
    code does not touch the instance. *)
Definition invoke (timestamp : Q) (w : World) (cb : Callback) : World :=
  match cb with
  | BoundAnimate => animate timestamp w
  | _ => w
  end.

(** The callbacks queued before the refresh run; those they queue wait
    for the next one. *)
Definition refresh (timestamp : Q) (w : World) : World :=
  fold_left (invoke timestamp) (frameRequests w) (set_frameRequests [] w).

Definition step (w : World) (e : Event) : World :=
  match e with
  | CallStart => start w
  | CallStop => stop w
  | CallDispose => dispose w
  | Refresh t => refresh t w
  | Elapse t => set_performance_now t w
  end.

Definition run (w : World) (es : list Event) : World := fold_left step es w.

(** The states of an instance during a run of the page. *)
Definition reachable (w : World) : Prop :=
  exists options now listeners es,
    w = run (constructor options now listeners) es.
End Methods.

(** ** A runnable [Math]

    Rational approximations (Bhaskara's sine, an integer square root), so
    that the model runs on concrete inputs.  The theorems below hold for
    every [JSMath]. *)

Definition approx_PI : Q := 355 # 113.

Definition approx_sin (x : Q) : Q :=
  let turn := Qred (x / (2 * approx_PI)) in
  let x := Qred ((turn - inject_Z (Qfloor turn)) * (2 * approx_PI)) in
  let arch y :=
    Qred (16 * y * (approx_PI - y)
          / (5 * approx_PI * approx_PI - 4 * y * (approx_PI - y))) in
  if Qle_bool x approx_PI then arch x else - arch (Qred (x - approx_PI)).

Definition approx_cos (x : Q) : Q := approx_sin (x + approx_PI / 2).

Definition approx_sqrt (x : Q) : Q :=
  Qmake (Z.sqrt (Qnum x * Zpos (Qden x) * 10 ^ 12)) (Qden x * 10 ^ 6).

(** Exact for integer exponents, [x * sqrt x] for the exponent 1.5 the
    class uses. *)
Definition approx_pow (x y : Q) : Q :=
  if Qeq_bool y (3 # 2) then x * approx_sqrt x else Qpower x (Qfloor y).

Definition approxMath : JSMath :=
  {| Math_PI := approx_PI; Math_cos := approx_cos; Math_sin := approx_sin;
     Math_pow := approx_pow |}.

(** The instance [main.js] builds (lines 10-17). *)
Definition mainOptions : Options.t :=
  {| Options.radius := Some 10; Options.segments := Some 72%nat;
     Options.rings := Some 60%nat; Options.length := Some 50;
     Options.speed := Some (3 # 100); Options.lineWidth := None;
     Options.baseOpacity := None; Options.color := Some 0%Z;
     Options.bufferSize := None; Options.segmentDetail := None |}.

Definition tunnel : World := constructor (M := approxMath) mainOptions 0 [].

(** ** Vocabulary of the statements *)

(** The clamp of the specification, by its words: below [lower] gives
    [lower], above [upper] gives [upper], anything else is kept. *)
Definition clamp (x lower upper : Q) : Q :=
  if gtb lower x then lower else if gtb x upper then upper else x.

(** The offset a section is sent back to (line 158). *)
Definition wrap_target (c : Config.t) : Q :=
  - (Config.length c / num (Config.bufferSize c))
  * (num (Config.bufferSize c) - 1).

(** What a frame does to one section, apart from the opacities. *)
Definition advance_section (c : Config.t) (s : Group) : Group :=
  set_group_z (advance c (group_z s)) s.



(** The same instance with another clock, another stored delta and
    another reading of the host's time. *)
Definition with_time (k : Clock) (d now : Q) (w : World) : World :=
  set_performance_now now (set_clock k (set_deltaTime d w)).

(** The last of the children [cs] that holds material [m]. *)
Definition last_holder (m : nat) (cs : list Object3D) : option Object3D :=
  last (filter (fun o => material o = m) cs).

(** Vertex [n] of a flat position buffer with three numbers per vertex. *)
Definition vertex (buf : list Q) (n : nat) : option (Q * Q * Q) :=
  match buf !! (3 * n)%nat, buf !! (3 * n + 1)%nat, buf !! (3 * n + 2)%nat with
  | Some x, Some y, Some z => Some (x, y, z)
  | _, _, _ => None
  end.

(** The line segment a [THREE.LineSegments] draws from the vertex pair
    [k]: vertices [2k] and [2k+1]. *)
Definition segment (buf : list Q) (k : nat)
    : option ((Q * Q * Q) * (Q * Q * Q)) :=
  match vertex buf (2 * k), vertex buf (2 * k + 1) with
  | Some a, Some b => Some (a, b)
  | _, _ => None
  end.

Section Vocabulary.
Context {M : JSMath}.

(** Section [k] as the constructor leaves it: its geometries and its
    materials are the store cells [2k] (rings) and [2k+1] (lines). *)
Definition section_at (c : Config.t) (k : nat) : Group :=
  {| group_z := num k * (Config.length c / num (Config.bufferSize c));
     children := section_children c (2 * k) (2 * k) (S (2 * k)) (S (2 * k)) |}.

Definition initial_geometries (c : Config.t) (n : nat) : list BufferGeometry :=
  flat_map (fun _ => [new_geometry (ringVertices c);
                      new_geometry (lineVertices c)]) (seq 0 n).

Definition initial_materials (c : Config.t) (n : nat) : list LineBasicMaterial :=
  flat_map (fun _ => [new_material c; new_material c]) (seq 0 n).

(** The invariant: the children of section [k] are those the constructor
    gave it (so its drawables hold the store cells [2k] and [2k+1] for
    ever), the material store keeps its size, and with a positive
    length, speed and buffer count no offset is below the wrap target. *)
Definition inv (w : World) : Prop :=
  map children (tunnelSections w) =
    map (fun k => children (section_at (config w) k))
        (seq 0 (Config.bufferSize (config w))) /\
  List.length (materials w) = (2 * Config.bufferSize (config w))%nat /\
  (scrolling_config (config w) ->
   Forall (fun s => wrap_target (config w) <= group_z s) (tunnelSections w)).

(** The point pass [i] of the outer loop pushes at step [j] of the inner
    loop (lines 116-123). *)
Definition line_point (c : Config.t) (i j : nat) : Q * Q * Q :=
  let theta := (num i / num (Config.segments c)) * Math_PI * 2 in
  (Math_cos theta * Config.radius c,
   Math_sin theta * Config.radius c,
   (num j / num steps) * Config.length c - Config.length c / 2).
End Vocabulary.

(** A coarse tunnel (few rings and segments) that scrolls by half a unit
    per frame; the length and the buffer count keep their defaults, so a
    section is 25 long. *)
Definition coarseOptions : Options.t :=
  {| Options.radius := None; Options.segments := Some 8%nat;
     Options.rings := Some 4%nat; Options.length := None;
     Options.speed := Some (1 # 2); Options.lineWidth := None;
     Options.baseOpacity := None; Options.color := None;
     Options.bufferSize := None; Options.segmentDetail := Some 16%nat |}.

Definition coarseTunnel : World := constructor (M := approxMath) coarseOptions 0 [].

(** ** The render surface and the resize path

    The part of the constructor that sets up the camera and the renderer
    (lines 27-47), the debouncing listener (lines 69-73) and
    [handleResize] (lines 174-182), with the host's timers.  The size of
    the container is a fact of the page that changes under the class. *)

Record Container := {
  clientWidth : Q;
  clientHeight : Q
}.

Record View := {
  camera_aspect : Q;
  pixelRatio : Q;
  surface : Q * Q;                    (* renderer.setSize(width, height) *)
  projectionUpdates : nat;            (* camera.updateProjectionMatrix() in handleResize *)
  parentElement : option Container;   (* renderer.domElement.parentElement *)
  resizeTimeout : option nat;         (* this.resizeTimeout: null or a timer id *)
  timers : list (nat * Q);            (* pending timeouts of this.handleResize: id, due time *)
  nextTimer : nat                     (* the id the next setTimeout returns *)
}.

(** Lines 27-47 and 69: the canvas is appended to the container. *)
Definition new_View (container : Container) (devicePixelRatio : Q)
    (firstTimer : nat) : View :=
  {| camera_aspect := clientWidth container / clientHeight container;
     pixelRatio := Math_min devicePixelRatio 2;
     surface := (clientWidth container, clientHeight container);
     projectionUpdates := 0;
     parentElement := Some container;
     resizeTimeout := None;
     timers := [];
     nextTimer := firstTimer |}.

Definition set_timers (r : option nat) (ts : list (nat * Q)) (n : nat)
    (v : View) : View :=
  {| camera_aspect := camera_aspect v; pixelRatio := pixelRatio v;
     surface := surface v; projectionUpdates := projectionUpdates v;
     parentElement := parentElement v;
     resizeTimeout := r; timers := ts; nextTimer := n |}.

Definition set_parentElement (p : option Container) (v : View) : View :=
  {| camera_aspect := camera_aspect v; pixelRatio := pixelRatio v;
     surface := surface v; projectionUpdates := projectionUpdates v;
     parentElement := p;
     resizeTimeout := resizeTimeout v; timers := timers v;
     nextTimer := nextTimer v |}.

(** [clearTimeout(id)]: the pending timeout with this id, if any, goes. *)
Definition clearTimeout (id : nat) (ts : list (nat * Q)) : list (nat * Q) :=
  filter (fun t => fst t <> id) ts.

(** The arrow function of lines 70-73, called at time [now].
    [if (this.resizeTimeout)] holds for a timer id other than 0. *)
Definition resize_arrow (now : Q) (v : View) : View :=
  let ts :=
    match resizeTimeout v with
    | Some (S i) => clearTimeout (S i) (timers v)
    | _ => timers v
    end in
  let id := nextTimer v in
  set_timers (Some id) (ts ++ [(id, now + 100)]) (S id) v.

(** Lines 174-182.  [None] is the TypeError of line 176 when the canvas
    has no parent element. *)
Definition handleResize (v : View) : option View :=
  match parentElement v with
  | None => None
  | Some container =>
      let width := clientWidth container in
      let height := clientHeight container in
      Some {| camera_aspect := width / height; pixelRatio := pixelRatio v;
              surface := (width, height);
              projectionUpdates := S (projectionUpdates v);
              parentElement := parentElement v;
              resizeTimeout := resizeTimeout v; timers := timers v;
              nextTimer := nextTimer v |}
  end.

(** A timeout that has come due leaves the host's list and its callback
    runs; an exception of the callback is the host's to report, the
    instance is as before the call. *)
Definition run_handleResize (v : View) : View := default v (handleResize v).

Definition is_due (now : Q) (t : nat * Q) : bool := Qle_bool (snd t) now.

Definition fire_due (now : Q) (v : View) : View :=
  let due := List.filter (is_due now) (timers v) in
  let rest := List.filter (fun t => negb (is_due now t)) (timers v) in
  fold_left (fun v _ => run_handleResize v) due
    (set_timers (resizeTimeout v) rest (nextTimer v) v).

(** A 'resize' event at time [now]: the window calls its listeners in
    the order of their registration. *)
Definition call_listener (now : Q) (v : View) (cb : Callback) : View :=
  match cb with
  | ResizeArrow => resize_arrow now v
  | BoundHandleResize => run_handleResize v
  | _ => v
  end.

Definition dispatch_resize (listeners : list Callback) (now : Q) (v : View)
    : View :=
  fold_left (call_listener now) listeners v.

(** A resize at time [now], the timeouts due by then having run. *)
Definition resize_at (v : View) (now : Q) : View :=
  resize_arrow now (fire_due now v).

(** Resize events that follow one another by less than the 100 ms of the
    debounce, the first one at or after [prev]. *)
Fixpoint burst_from (prev : Q) (ts : list Q) : Prop :=
  match ts with
  | [] => True
  | t :: ts => prev <= t /\ t < prev + 100 /\ burst_from t ts
  end.

(** What the instance keeps of its timers: ids are positive and every
    pending timeout is the one [this.resizeTimeout] names. *)
Definition timers_tracked (v : View) : Prop :=
  (0 < nextTimer v)%nat /\
  Forall (fun t => resizeTimeout v = Some (fst t) /\ (0 < fst t)%nat) (timers v).

(** At most one timeout pending, and that one tracked. *)
Definition debounced (v : View) : Prop :=
  timers_tracked v /\ (List.length (timers v) <= 1)%nat.

(** A container of 800 by 600. *)
Definition page : Container := {| clientWidth := 800; clientHeight := 600 |}.

(** What happens to the view: the window is resized, time passes, the
    page lays the container out anew or takes the canvas out of it. *)
Inductive ViewEvent :=
  | ResizeEvent (now : Q)
  | TimePasses (now : Q)
  | Layout (p : option Container).

Definition view_step (listeners : list Callback) (v : View) (e : ViewEvent)
    : View :=
  match e with
  | ResizeEvent now => dispatch_resize listeners now v
  | TimePasses now => fire_due now v
  | Layout p => set_parentElement p v
  end.

(** ** More vocabulary *)

(** The children of [cs] that hold material [m], geometry [g]. *)
Definition material_holders (m : nat) (cs : list Object3D) : nat :=
  List.length (filter (fun o => material o = m) cs).

Definition geometry_holders (g : nat) (cs : list Object3D) : nat :=
  List.length (filter (fun o => geometry o = g) cs).

(** Lines 200-206 without the scene: the stores after the disposal of
    the sections [secs]. *)
Definition dispose_stores (secs : list Group)
    (stores : list BufferGeometry * list LineBasicMaterial)
    : list BufferGeometry * list LineBasicMaterial :=
  fold_left (fun st s => fold_left dispose_child (children s) st) secs stores.

(** The angle and the point the loop of lines 84-91 computes at pass
    [i]. *)
Definition ring_point {M : JSMath} (c : Config.t) (i : nat) : Q * Q * Q :=
  let theta := (num i / num (Config.segmentDetail c)) * Math_PI * 2 in
  (Math_cos theta * Config.radius c, Math_sin theta * Config.radius c, 0).

(** Vertex [n] of the line buffer by the passes that pushed it: the pass
    of the outer loop and the step of the inner one. *)
Definition pass_of (n : nat) : nat := n / S steps.
Definition step_of (n : nat) : nat := n mod S steps.

(** The material store [ms'] is what a frame step writes over the
    sections [secs]: the opacity of every cell is the one line 164
    computes for the last child that holds the cell, at the offset of its
    section after the advance. *)
Definition written_by_frame {M : JSMath} (c : Config.t) (secs : list Group)
    (ms' : list LineBasicMaterial) : Prop :=
  forall x m', ms' !! x = Some m' ->
    exists k s ch, secs !! k = Some s /\
      last_holder x (children s) = Some ch /\
      opacity m' = fade c (position_z ch) (advance c (group_z s)).

(** How often [dispose()] was called on a cell of a store. *)
Definition material_disposals (w : World) (x : nat) : option nat :=
  material_disposed <$> materials w !! x.

Definition geometry_disposals (w : World) (x : nat) : option nat :=
  geometry_disposed <$> geometries w !! x.

(** What every reachable state keeps of the geometry store and of the
    scene: the store has its two cells per section, and the scene holds
    sections of the instance only. *)
Definition inv_scene (w : World) : Prop :=
  List.length (geometries w) = (2 * Config.bufferSize (config w))%nat /\
  Forall (fun i => (i < List.length (tunnelSections w))%nat) (sceneChildren w).

(** * Properties *)

(** ** Numbers *)

Lemma gtb_true (a b : Q) : gtb a b = true <-> b < a.
Proof.
  unfold gtb. rewrite (Qgt_alt a b).
  destruct (a ?= b); split; congruence.
Qed.

Lemma gtb_false (a b : Q) : gtb a b = false <-> a <= b.
Proof.
  unfold gtb. rewrite (Qle_alt a b).
  destruct (a ?= b); split; congruence.
Qed.

Lemma num_nonneg (n : nat) : 0 <= num n.
Proof.
  unfold num, Qle. simpl. lia.
Qed.

Lemma num_pos (n : nat) : (0 < n)%nat -> 0 < num n.
Proof.
  intros H. unfold num, Qlt. simpl. lia.
Qed.

Lemma num_le (i n : nat) : (i <= n)%nat -> num i <= num n.
Proof.
  intros H. unfold num, Qle. simpl. lia.
Qed.

Lemma half_sum (x : Q) : x / 2 + x / 2 == x.
Proof. field. Qed.

(** A fraction [i/n] of a non-negative length lies between 0 and it. *)
Lemma fraction_bounds (i n : nat) (len : Q) :
  (0 < n)%nat -> (i <= n)%nat -> 0 <= len ->
  0 <= num i / num n * len /\ num i / num n * len <= len.
Proof.
  intros Hn Hi Hlen.
  pose proof (num_pos n Hn) as Hpos.
  pose proof (num_nonneg i) as Hi0.
  pose proof (num_le i n Hi) as Hle.
  assert (H0 : 0 <= num i / num n).
  { apply Qle_shift_div_l; [exact Hpos | lra]. }
  assert (H1 : num i / num n <= 1).
  { apply Qle_shift_div_r; [exact Hpos | lra]. }
  split; nra.
Qed.

(** ** The opacity of a child *)

Lemma max_min_is_clamp (x lower upper : Q) :
  lower <= upper -> Math_max lower (Math_min upper x) == clamp x lower upper.
Proof.
  intros Hlu. unfold Math_max, Math_min, clamp.
  destruct (gtb lower x) eqn:Hlo; [apply gtb_true in Hlo | apply gtb_false in Hlo].
  - rewrite Q.min_r by lra. apply Q.max_l. lra.
  - destruct (gtb x upper) eqn:Hhi;
      [apply gtb_true in Hhi | apply gtb_false in Hhi].
    + rewrite Q.min_l by lra. apply Q.max_r. lra.
    + rewrite Q.min_r by lra. apply Q.max_r. lra.
Qed.

Lemma max_min_bounds (x lower upper : Q) :
  lower <= upper ->
  lower <= Math_max lower (Math_min upper x) /\
  Math_max lower (Math_min upper x) <= upper.
Proof.
  intros Hlu. unfold Math_max, Math_min. split.
  - apply Q.le_max_l.
  - apply Q.max_lub; [exact Hlu | apply Q.le_min_l].
Qed.

Section Opacity.
Context {M : JSMath}.

(** C2.  The opacity the frame step computes for a child at local
    position [childZ] in a section at offset [sectionZ] is the clamp to
    [0.2, 0.7] of [1 - (d / (0.7 * length))^1.5] with
    [d = |childZ + sectionZ|], and for every distance [d >= 0], zero and
    arbitrarily large ones included, the computed opacity lies between
    0.2 and 0.7.  The hypothesis keeps the statement to the
    configurations for which the rational model stands for the
    JavaScript numbers (a zero length would make the quotient NaN). *)
Theorem opacity_is_clamped (c : Config.t) (childZ sectionZ : Q) :
  valid_config c ->
  (let distanceFromCamera := Qabs (childZ + sectionZ) in
   fade c childZ sectionZ ==
     clamp (1 - Math_pow (distanceFromCamera / (Config.length c * (7 # 10)))
                         (3 # 2))
           (2 # 10) (7 # 10)) /\
  (forall d : Q, 0 <= d ->
     2 # 10 <= opacity_at c d /\ opacity_at c d <= 7 # 10) /\
  2 # 10 <= fade c childZ sectionZ /\ fade c childZ sectionZ <= 7 # 10.
Proof.
  intros _. split; [| split].
  - cbv zeta. unfold fade, opacity_at, Math_abs.
    apply max_min_is_clamp. lra.
  - intros d _. unfold opacity_at. apply max_min_bounds. lra.
  - unfold fade, opacity_at. apply max_min_bounds. lra.
Qed.
End Opacity.

(** The bounds are reached: at distance 0 a power of 0 leaves the upper
    bound, and far away a large power leaves the lower one. *)
Example opacity_near : opacity_at (M := approxMath) defaultConfig 0 == 7 # 10.
Proof. reflexivity. Qed.

Example opacity_far : opacity_at (M := approxMath) defaultConfig 1000 == 2 # 10.
Proof. reflexivity. Qed.

Lemma defaultConfig_valid : valid_config defaultConfig.
Proof.
  unfold valid_config. simpl. repeat split; (reflexivity || lia).
Qed.

Lemma opacity_is_clamped_witness :
  valid_config defaultConfig /\
  2 # 10 <= fade (M := approxMath) defaultConfig (-25) (3 # 100) /\
  fade (M := approxMath) defaultConfig (-25) (3 # 100) <= 7 # 10.
Proof.
  split; [exact defaultConfig_valid |].
  exact (proj2 (proj2 (opacity_is_clamped (M := approxMath) defaultConfig
                         (-25) (3 # 100) defaultConfig_valid))).
Defined.

(** ** The rings of a section *)

Section Rings.
Context {M : JSMath}.

Lemma createTunnelSection_children (c : Config.t)
    (gs : list BufferGeometry) (ms : list LineBasicMaterial) :
  children (createTunnelSection c gs ms).1.1 =
    section_children c (List.length gs) (List.length ms)
      (S (List.length gs)) (S (List.length ms)).
Proof.
  unfold createTunnelSection. simpl.
  rewrite !length_app. simpl. rewrite !Nat.add_1_r. reflexivity.
Qed.

Lemma section_children_length (c : Config.t) (g m g' m' : nat) :
  List.length (section_children c g m g' m') = S (S (Config.rings c)).
Proof.
  unfold section_children.
  rewrite length_app, length_map, length_seq. simpl. lia.
Qed.

(** The child at index [i <= rings] is ring [i]. *)
Lemma section_children_ring (c : Config.t) (g m g' m' i : nat) :
  (i <= Config.rings c)%nat ->
  section_children c g m g' m' !! i = Some (ring c g m i).
Proof.
  intros Hi. unfold section_children.
  rewrite lookup_app_l by (rewrite length_map, length_seq; lia).
  rewrite list_lookup_fmap.
  rewrite lookup_seq_lt by lia. reflexivity.
Qed.

(** The child after the rings is the line batch; it is the last one. *)
Lemma section_children_lines (c : Config.t) (g m g' m' : nat) :
  section_children c g m g' m' !! S (Config.rings c) = Some (lines g' m').
Proof.
  unfold section_children.
  rewrite lookup_app_r by (rewrite length_map, length_seq; lia).
  rewrite length_map, length_seq, Nat.sub_diag. reflexivity.
Qed.

Lemma filter_Line_rings (c : Config.t) (g m : nat) (l : list nat) :
  filter (fun o => kind o = Line) (map (ring c g m) l) = map (ring c g m) l.
Proof.
  induction l as [| i l IH]; [reflexivity |].
  simpl. rewrite filter_cons_True by reflexivity. by rewrite IH.
Qed.

Lemma ring_position_bounds (c : Config.t) (g m i : nat) :
  valid_config c -> (i <= Config.rings c)%nat ->
  - (Config.length c / 2) <= position_z (ring c g m i) /\
  position_z (ring c g m i) <= Config.length c / 2.
Proof.
  intros (_ & Hlen & _ & _ & Hrings & _) Hi. unfold ring. cbn [position_z].
  destruct (fraction_bounds i (Config.rings c) (Config.length c))
    as [H0 H1]; [exact Hrings | exact Hi | lra |].
  pose proof (half_sum (Config.length c)) as Hhalf.
  revert H0 H1.
  generalize (num i / num (Config.rings c) * Config.length c) as x.
  intros x H0 H1. split; lra.
Qed.

(** C8.  For every valid configuration a section created by
    [createTunnelSection] holds exactly [rings + 1] ring drawables; they
    are its first [rings + 1] children, ring [i] sits at
    [(i / rings) * length - length / 2], and every ring of the section
    lies within [-length/2, +length/2]. *)
Theorem rings_count_and_positions (c : Config.t)
    (gs : list BufferGeometry) (ms : list LineBasicMaterial) :
  valid_config c ->
  let section := (createTunnelSection c gs ms).1.1 in
  List.length (filter (fun o => kind o = Line) (children section))
    = S (Config.rings c) /\
  (forall i : nat, (i <= Config.rings c)%nat ->
     exists r, children section !! i = Some r /\ kind r = Line /\
       position_z r =
         (num i / num (Config.rings c)) * Config.length c
         - Config.length c / 2) /\
  (forall r, r ∈ children section -> kind r = Line ->
     - (Config.length c / 2) <= position_z r /\
     position_z r <= Config.length c / 2).
Proof.
  intros Hv section. subst section.
  rewrite createTunnelSection_children.
  split; [| split].
  - unfold section_children. rewrite filter_app, filter_Line_rings.
    rewrite filter_cons_False by discriminate. rewrite filter_nil.
    rewrite length_app, length_map, length_seq. simpl. lia.
  - intros i Hi. exists (ring c (List.length gs) (List.length ms) i).
    split; [by apply section_children_ring |]. split; reflexivity.
  - intros r Hr Hk. unfold section_children in Hr.
    apply elem_of_app in Hr as [Hr | Hr].
    + apply list_elem_of_fmap in Hr as (i & -> & Hi).
      apply elem_of_seq in Hi.
      apply ring_position_bounds; [exact Hv | lia].
    + apply list_elem_of_singleton in Hr. subst r. discriminate.
Qed.
End Rings.

Lemma rings_count_and_positions_witness :
  valid_config defaultConfig /\
  List.length
    (filter (fun o => kind o = Line)
       (children (createTunnelSection (M := approxMath) defaultConfig [] []).1.1))
  = 61%nat.
Proof.
  split; [exact defaultConfig_valid |].
  exact (proj1 (rings_count_and_positions (M := approxMath) defaultConfig
                  [] [] defaultConfig_valid)).
Defined.

(** ** The offset of a section *)


Lemma sectionLength_pos (c : Config.t) : scrolling_config c -> 0 < sectionLength c.
Proof.
  intros (Hlen & _ & Hbuf). unfold sectionLength.
  apply Qlt_shift_div_l; [by apply num_pos | lra].
Qed.

Lemma num_ge_1 (n : nat) : (0 < n)%nat -> 1 <= num n.
Proof.
  intros H. unfold num, Qle. simpl. lia.
Qed.

Lemma wrap_target_nonpos (c : Config.t) : scrolling_config c -> wrap_target c <= 0.
Proof.
  intros Hv. pose proof (sectionLength_pos c Hv) as Hsl.
  destruct Hv as (_ & _ & Hbuf).
  pose proof (num_ge_1 _ Hbuf) as Hn.
  unfold wrap_target. unfold sectionLength in Hsl.
  revert Hsl Hn.
  generalize (Config.length c / num (Config.bufferSize c)) as sl.
  generalize (num (Config.bufferSize c)) as n.
  intros n sl Hsl Hn. nra.
Qed.

(** The two cases of lines 154-159: the advanced offset is strictly
    beyond [sectionLength] and the section is sent back, or it is not and
    the advanced offset is kept. *)
Lemma advance_cases (c : Config.t) (z : Q) :
  (sectionLength c < z + Config.speed c /\ advance c z = wrap_target c) \/
  (z + Config.speed c <= sectionLength c /\ advance c z = z + Config.speed c).
Proof.
  unfold advance.
  destruct (gtb (z + Config.speed c) (sectionLength c)) eqn:Hg.
  - left. split; [by apply gtb_true | reflexivity].
  - right. split; [by apply gtb_false | reflexivity].
Qed.

Lemma advance_bounds (c : Config.t) (z : Q) :
  scrolling_config c -> wrap_target c <= z ->
  wrap_target c <= advance c z /\ advance c z <= sectionLength c.
Proof.
  intros Hv Hz.
  pose proof (sectionLength_pos c Hv) as Hsl.
  pose proof (wrap_target_nonpos c Hv) as Hw.
  destruct Hv as (_ & Hspeed & _).
  destruct (advance_cases c z) as [[_ ->] | [Hle ->]]; split; lra.
Qed.

Section Frame.
Context {M : JSMath}.

Lemma forEach_section_sections (c : Config.t) (secs : list Group)
    (ms : list LineBasicMaterial) :
  (forEach_section c secs ms).1 = map (advance_section c) secs.
Proof.
  revert ms. induction secs as [| s secs IH]; intros ms; [reflexivity |].
  simpl.
  specialize (IH (opacity_pass c (advance c (group_z s)) (children s) ms)).
  destruct (forEach_section c secs _) as [rest ms']. simpl in *.
  by rewrite IH.
Qed.

Lemma animate_config (t : Q) (w : World) : config (animate t w) = config w.
Proof.
  unfold animate. destruct (isAnimating w); [| reflexivity]. simpl.
  destruct (Clock_getDelta _ _) as [delta k]. simpl.
  destruct (forEach_section _ _ _) as [secs ms]. reflexivity.
Qed.

Lemma animate_sections (t : Q) (w : World) :
  tunnelSections (animate t w) =
    if isAnimating w then map (advance_section (config w)) (tunnelSections w)
    else tunnelSections w.
Proof.
  unfold animate. destruct (isAnimating w); [| reflexivity]. simpl.
  destruct (Clock_getDelta _ _) as [delta k]. simpl.
  rewrite <- forEach_section_sections with (ms := materials w).
  destruct (forEach_section _ _ _) as [secs ms]. reflexivity.
Qed.

Lemma animate_materials (t : Q) (w : World) :
  materials (animate t w) =
    if isAnimating w
    then (forEach_section (config w) (tunnelSections w) (materials w)).2
    else materials w.
Proof.
  unfold animate. destruct (isAnimating w); [| reflexivity]. simpl.
  destruct (Clock_getDelta _ _) as [delta k]. simpl.
  destruct (forEach_section _ _ _) as [secs ms]. reflexivity.
Qed.

Lemma animate_isAnimating (t : Q) (w : World) :
  isAnimating (animate t w) = isAnimating w.
Proof.
  unfold animate. destruct (isAnimating w) eqn:H; [| exact H]. simpl.
  destruct (Clock_getDelta _ _) as [delta k]. simpl.
  destruct (forEach_section _ _ _) as [secs ms]. exact H.
Qed.

Lemma animate_frameRequests (t : Q) (w : World) :
  frameRequests (animate t w) =
    if isAnimating w then frameRequests w ++ [BoundAnimate]
    else frameRequests w.
Proof.
  unfold animate. destruct (isAnimating w); [| reflexivity]. simpl.
  destruct (Clock_getDelta _ _) as [delta k]. simpl.
  destruct (forEach_section _ _ _) as [secs ms]. reflexivity.
Qed.

Lemma animate_resizeListeners (t : Q) (w : World) :
  resizeListeners (animate t w) = resizeListeners w.
Proof.
  unfold animate. destruct (isAnimating w); [| reflexivity]. simpl.
  destruct (Clock_getDelta _ _) as [delta k]. simpl.
  destruct (forEach_section _ _ _) as [secs ms]. reflexivity.
Qed.
End Frame.

(** ** The constructed instance *)

Section Construction.
Context {M : JSMath}.

Lemma length_flat_map_pair {A B} (a b : B) (l : list A) :
  List.length (flat_map (fun _ => [a; b]) l) = (2 * List.length l)%nat.
Proof.
  induction l as [| x l IH]; [reflexivity |]. simpl in *. lia.
Qed.

Lemma initial_geometries_length (c : Config.t) (n : nat) :
  List.length (initial_geometries c n) = (2 * n)%nat.
Proof.
  unfold initial_geometries. by rewrite length_flat_map_pair, length_seq.
Qed.

Lemma initial_materials_length (c : Config.t) (n : nat) :
  List.length (initial_materials c n) = (2 * n)%nat.
Proof.
  unfold initial_materials. by rewrite length_flat_map_pair, length_seq.
Qed.

Lemma build_sections_prefix (c : Config.t) (n : nat) :
  fold_left (add_section c) (seq 0 n) ([], [], []) =
    (map (section_at c) (seq 0 n), initial_geometries c n,
     initial_materials c n).
Proof.
  induction n as [| n IH]; [reflexivity |].
  rewrite seq_S, fold_left_app, IH. simpl.
  unfold createTunnelSection, set_group_z. simpl.
  rewrite !length_app, initial_geometries_length, initial_materials_length.
  simpl. rewrite !Nat.add_0_r, !Nat.add_1_r.
  unfold initial_geometries, initial_materials.
  rewrite !seq_S, !flat_map_app, map_app. simpl.
  rewrite <- !app_assoc. simpl.
  unfold section_at. simpl. rewrite !Nat.add_0_r. reflexivity.
Qed.

Lemma constructor_config (o : Options.t) (now : Q) (ls : list Callback) :
  config (constructor o now ls) = Object_assign defaultConfig o.
Proof.
  unfold constructor, build_sections. by rewrite build_sections_prefix.
Qed.

Lemma constructor_sections (o : Options.t) (now : Q) (ls : list Callback) :
  tunnelSections (constructor o now ls) =
    let c := Object_assign defaultConfig o in
    map (section_at c) (seq 0 (Config.bufferSize c)).
Proof.
  unfold constructor, build_sections. by rewrite build_sections_prefix.
Qed.

Lemma constructor_materials (o : Options.t) (now : Q) (ls : list Callback) :
  materials (constructor o now ls) =
    let c := Object_assign defaultConfig o in
    initial_materials c (Config.bufferSize c).
Proof.
  unfold constructor, build_sections. by rewrite build_sections_prefix.
Qed.

Lemma constructor_loop (o : Options.t) (now : Q) (ls : list Callback) :
  isAnimating (constructor o now ls) = false /\
  frameRequests (constructor o now ls) = [] /\
  clock (constructor o now ls) = new_Clock /\
  resizeListeners (constructor o now ls) = ls ++ [ResizeArrow].
Proof.
  unfold constructor, build_sections.
  by rewrite build_sections_prefix.
Qed.
End Construction.

(** ** What every reachable state keeps *)

Section Invariant.
Context {M : JSMath}.

Lemma opacity_pass_length (c : Config.t) (z : Q) (cs : list Object3D)
    (ms : list LineBasicMaterial) :
  List.length (opacity_pass c z cs ms) = List.length ms.
Proof.
  revert ms. induction cs as [| ch cs IH]; intros ms; [reflexivity |].
  unfold opacity_pass in *. simpl. rewrite IH.
  unfold set_child_opacity. apply length_alter.
Qed.

Lemma forEach_section_length (c : Config.t) (secs : list Group)
    (ms : list LineBasicMaterial) :
  List.length (forEach_section c secs ms).2 = List.length ms.
Proof.
  revert ms. induction secs as [| s secs IH]; intros ms; [reflexivity |].
  simpl.
  specialize (IH (opacity_pass c (advance c (group_z s)) (children s) ms)).
  destruct (forEach_section c secs _) as [rest ms']. simpl in *.
  by rewrite IH, opacity_pass_length.
Qed.

(** The stores after the disposal of some sections: same cells, only
    the dispose counters move. *)
Lemma dispose_child_materials (cs : list Object3D)
    (gs : list BufferGeometry) (ms : list LineBasicMaterial) :
  map opacity (fold_left dispose_child cs (gs, ms)).2 = map opacity ms /\
  List.length (fold_left dispose_child cs (gs, ms)).2 = List.length ms.
Proof.
  revert gs ms. induction cs as [| ch cs IH]; intros gs ms; [done |].
  simpl. destruct (IH
    (alter (fun g => {| position := position g; itemSize := itemSize g;
                        geometry_disposed := S (geometry_disposed g) |})
           (geometry ch) gs)
    (alter (fun m => {| m_color := m_color m; transparent := transparent m;
                        opacity := opacity m; linewidth := linewidth m;
                        material_disposed := S (material_disposed m) |})
           (material ch) ms)) as [IH1 IH2].
  rewrite IH1, IH2, length_alter. split; [| reflexivity].
  apply list_eq. intros i. rewrite !list_lookup_fmap.
  destruct (decide (material ch = i)) as [-> | Hne].
  - rewrite list_lookup_alter_eq. by destruct (ms !! i).
  - by rewrite list_lookup_alter_ne.
Qed.

Lemma dispose_sections_materials (l : list (nat * Group)) (sc : list nat)
    (gs : list BufferGeometry) (ms : list LineBasicMaterial) :
  map opacity (fold_left dispose_section l (sc, (gs, ms))).2.2 = map opacity ms /\
  List.length (fold_left dispose_section l (sc, (gs, ms))).2.2 = List.length ms.
Proof.
  revert sc gs ms. induction l as [| [i s] l IH]; intros sc gs ms; [done |].
  simpl.
  destruct (fold_left dispose_child (children s) (gs, ms)) as [gs' ms'] eqn:E.
  destruct (IH (filter (fun k => k <> i) sc) gs' ms') as [IH1 IH2].
  rewrite IH1, IH2.
  pose proof (dispose_child_materials (children s) gs ms) as [H1 H2].
  rewrite E in H1, H2. simpl in *. by rewrite H1, H2.
Qed.

Lemma dispose_sections (w : World) :
  config (dispose w) = config w /\
  tunnelSections (dispose w) = tunnelSections w /\
  map opacity (materials (dispose w)) = map opacity (materials w) /\
  List.length (materials (dispose w)) = List.length (materials w).
Proof.
  unfold dispose.
  pose proof (dispose_sections_materials
    (imap pair (tunnelSections (removeEventListener BoundHandleResize (stop w))))
    (sceneChildren (removeEventListener BoundHandleResize (stop w)))
    (geometries (removeEventListener BoundHandleResize (stop w)))
    (materials (removeEventListener BoundHandleResize (stop w)))) as [H1 H2].
  destruct (fold_left dispose_section _ _) as [sc [gs ms]]. simpl in *.
  done.
Qed.

Lemma inv_constructor (o : Options.t) (now : Q) (ls : list Callback) :
  inv (constructor o now ls).
Proof.
  unfold inv.
  rewrite constructor_config, constructor_sections, constructor_materials.
  cbv zeta. set (c := Object_assign defaultConfig o).
  split; [| split].
  - by rewrite map_map.
  - apply initial_materials_length.
  - intros Hv. apply Forall_forall. intros s Hs.
    apply list_elem_of_fmap in Hs as (k & -> & _).
    unfold section_at. cbn [group_z].
    pose proof (wrap_target_nonpos c Hv) as Hw.
    pose proof (sectionLength_pos c Hv) as Hsl.
    pose proof (num_nonneg k) as Hk.
    unfold sectionLength in Hsl. revert Hsl Hk Hw.
    generalize (Config.length c / num (Config.bufferSize c)) as sl.
    generalize (num k) as x. generalize (wrap_target c) as t.
    intros t x sl Hsl Hk Hw. nra.
Qed.

Lemma map_children_advance (c : Config.t) (secs : list Group) :
  map children (map (advance_section c) secs) = map children secs.
Proof.
  rewrite map_map. apply map_ext. reflexivity.
Qed.

Lemma inv_animate (t : Q) (w : World) : inv w -> inv (animate t w).
Proof.
  intros (Hch & Hms & Hoff). unfold inv.
  rewrite animate_config, animate_sections, animate_materials.
  destruct (isAnimating w); [| done].
  rewrite map_children_advance, forEach_section_length.
  split; [exact Hch | split; [exact Hms |]].
  intros Hv. specialize (Hoff Hv).
  apply Forall_forall. intros s Hs.
  apply list_elem_of_fmap in Hs as (s0 & -> & Hs0).
  rewrite Forall_forall in Hoff. simpl.
  by apply advance_bounds, Hoff.
Qed.

Lemma inv_start (w : World) : inv w -> inv (start w).
Proof.
  intros H. unfold start. destruct (isAnimating w); [exact H |].
  apply inv_animate. exact H.
Qed.

Lemma inv_stop (w : World) : inv w -> inv (stop w).
Proof. intros H. exact H. Qed.

Lemma inv_dispose (w : World) : inv w -> inv (dispose w).
Proof.
  intros (Hch & Hms & Hoff). unfold inv.
  destruct (dispose_sections w) as (-> & -> & _ & ->). done.
Qed.

Lemma inv_refresh (t : Q) (w : World) : inv w -> inv (refresh t w).
Proof.
  intros H. unfold refresh.
  assert (H0 : inv (set_frameRequests [] w)) by exact H.
  revert H0. generalize (set_frameRequests [] w). clear H.
  induction (frameRequests w) as [| cb cbs IH]; intros w0 H0; [exact H0 |].
  simpl. apply IH. destruct cb; simpl; try exact H0. by apply inv_animate.
Qed.

Lemma inv_step (w : World) (e : Event) : inv w -> inv (step w e).
Proof.
  intros H. destruct e; simpl.
  - by apply inv_start.
  - by apply inv_stop.
  - by apply inv_dispose.
  - by apply inv_refresh.
  - exact H.
Qed.

Lemma inv_run (w : World) (es : list Event) : inv w -> inv (run w es).
Proof.
  revert w. induction es as [| e es IH]; intros w H; [exact H |].
  simpl. apply IH. by apply inv_step.
Qed.

Lemma start_config (w : World) : config (start w) = config w.
Proof.
  unfold start. destruct (isAnimating w); [reflexivity |].
  simpl. by rewrite animate_config.
Qed.

Lemma refresh_config (t : Q) (w : World) : config (refresh t w) = config w.
Proof.
  unfold refresh. change (config w) with (config (set_frameRequests [] w)).
  generalize (set_frameRequests [] w).
  induction (frameRequests w) as [| cb cbs IH]; intros w0; [reflexivity |].
  simpl. rewrite IH. destruct cb; simpl; try reflexivity.
  apply animate_config.
Qed.

Lemma step_config (w : World) (e : Event) : config (step w e) = config w.
Proof.
  destruct e; simpl; try reflexivity.
  - apply start_config.
  - apply dispose_sections.
  - apply refresh_config.
Qed.

Lemma run_config (w : World) (es : list Event) : config (run w es) = config w.
Proof.
  revert w. induction es as [| e es IH]; intros w; [reflexivity |].
  simpl. change (fold_left step es (step w e)) with (run (step w e) es).
  by rewrite IH, step_config.
Qed.

Lemma reachable_inv (w : World) : reachable w -> inv w.
Proof.
  intros (o & now & ls & es & ->). apply inv_run, inv_constructor.
Qed.
End Invariant.

(** ** C1: the offsets after a frame *)

Section Offsets.
Context {M : JSMath}.

End Offsets.

Lemma coarseTunnel_valid (es : list Event) :
  valid_config (config (run (M := approxMath) coarseTunnel es)).
Proof.
  rewrite run_config. unfold coarseTunnel. rewrite constructor_config.
  unfold valid_config. simpl. repeat split; (reflexivity || lia).
Qed.


Lemma coarseTunnel_reachable (es : list Event) :
  reachable (M := approxMath) (run (M := approxMath) coarseTunnel es).
Proof. exists coarseOptions, 0, [], es. reflexivity. Qed.


(** ** C3: the loop's state machine *)

Section Loop.
Context {M : JSMath}.


Lemma start_stopped (w : World) :
  isAnimating w = false ->
  start w =
    animate 0
      (set_clock (Clock_start (performance_now w) (clock w))
         (set_isAnimating true w)).
Proof.
  intros H. unfold start. by rewrite H.
Qed.

Lemma start_isAnimating (w : World) : isAnimating (start w) = true.
Proof.
  unfold start. destruct (isAnimating w) eqn:H; [exact H |].
  simpl. by rewrite animate_isAnimating.
Qed.


Lemma animate_stopped (t : Q) (w : World) :
  isAnimating w = false -> animate t w = w.
Proof.
  intros H. unfold animate. by rewrite H.
Qed.



End Loop.


(** A loop stopped and started again before its pending callback has run
    keeps that callback and requests another. *)
Example restart_within_a_frame :
  frameRequests
    (run (M := approxMath) coarseTunnel [CallStart; CallStop; CallStart])
  = [BoundAnimate; BoundAnimate].
Proof. vm_compute. reflexivity. Qed.

(** The coarse tunnel, started twice and then refreshed five times, has
    one frame callback pending. *)
Example loop_single :
  frameRequests
    (run (M := approxMath) coarseTunnel
       (CallStart :: CallStart :: repeat (Refresh 0) 5)) = [BoundAnimate].
Proof. vm_compute. reflexivity. Qed.

(** ** C9: the frame step does not read the elapsed time *)

Section Delta.
Context {M : JSMath}.

(** C9.  Two frame steps from states that differ only in what the clock
    measures (the clock, the stored delta, the host's time, the
    timestamp passed to the callback) leave the same section offsets and
    the same material opacities.  And the advance of a running frame is
    the fixed increment [speed], whatever the clock measures: a section
    at offset [z] is at exactly [z + speed] after the step when that is
    at most [sectionLength], and at the wrap target when [z + speed] is
    beyond it. *)
Theorem frame_ignores_delta (w : World) (t1 t2 : Q) (k1 k2 : Clock)
    (d1 d2 now1 now2 : Q) :
  let a1 := animate t1 (with_time k1 d1 now1 w) in
  let a2 := animate t2 (with_time k2 d2 now2 w) in
  tunnelSections a1 = tunnelSections a2 /\
  materials a1 = materials a2 /\
  (isAnimating w = true ->
   Forall2 (fun s s' =>
       let z := group_z s + Config.speed (config w) in
       (z <= sectionLength (config w) -> group_z s' = z) /\
       (sectionLength (config w) < z -> group_z s' = wrap_target (config w)))
     (tunnelSections w) (tunnelSections a1)).
Proof.
  cbv zeta. rewrite !animate_sections, !animate_materials. simpl.
  split; [reflexivity | split; [reflexivity |]].
  intros ->. apply Forall2_fmap_r, Forall_Forall2_diag, Forall_forall.
  intros s _. unfold advance_section, compose. cbn [group_z set_group_z].
  destruct (advance_cases (config w) (group_z s)) as [[Hlt ->] | [Hle ->]];
    split; intros H; (reflexivity || lra).
Qed.
End Delta.

(** The measured delta itself does differ between two such steps. *)
Example delta_differs :
  let w := run (M := approxMath) coarseTunnel [CallStart] in
  deltaTime (animate (M := approxMath) 0 (set_performance_now 16 w)) == 16 # 1000 /\
  deltaTime (animate (M := approxMath) 0 (set_performance_now 33 w)) == 33 # 1000.
Proof. split; vm_compute; reflexivity. Qed.

(** ** C10: stop after dispose *)

Section Disposal.
Context {M : JSMath}.

Lemma dispose_loop (w : World) :
  isAnimating (dispose w) = false /\
  clock (dispose w) = Clock_stop (performance_now w) (clock w) /\
  performance_now (dispose w) = performance_now w.
Proof.
  unfold dispose.
  destruct (fold_left dispose_section _ _) as [sc [gs ms]]. done.
Qed.

(** C10.  [stop] is a total function (a field write and [Clock.stop],
    neither of which can fail on an instance whose fields [dispose] left
    in place), and called on a disposed instance it returns the very
    same state: the loop stays stopped, and no store cell, counter,
    listener or frame request changes. *)
Theorem stop_after_dispose (w : World) : stop (dispose w) = dispose w.
Proof.
  destruct (dispose_loop w) as (Ha & Hk & Hn).
  destruct (dispose w) as [c secs a k d l sc gs ms rc rd now rl fr].
  simpl in Ha, Hk, Hn. subst a k now. reflexivity.
Qed.
End Disposal.

(** ** C6: the resize listener *)

Section Listener.
Context {M : JSMath}.

Lemma start_resizeListeners (w : World) :
  resizeListeners (start w) = resizeListeners w.
Proof.
  unfold start. destruct (isAnimating w); [reflexivity |].
  simpl. by rewrite animate_resizeListeners.
Qed.

Lemma refresh_resizeListeners (t : Q) (w : World) :
  resizeListeners (refresh t w) = resizeListeners w.
Proof.
  unfold refresh.
  change (resizeListeners w) with (resizeListeners (set_frameRequests [] w)).
  generalize (set_frameRequests [] w).
  induction (frameRequests w) as [| cb cbs IH]; intros w0; [reflexivity |].
  simpl. rewrite IH. destruct cb; simpl; try reflexivity.
  apply animate_resizeListeners.
Qed.

(** All [dispose] does to the window's listeners is the call of line
    199, which asks for the removal of [this.handleResize]. *)
Lemma dispose_resizeListeners (w : World) :
  resizeListeners (dispose w) =
    filter (fun x => x <> BoundHandleResize) (resizeListeners w).
Proof.
  unfold dispose.
  destruct (fold_left dispose_section _ _) as [sc [gs ms]]. reflexivity.
Qed.

Lemma step_keeps_arrow (w : World) (e : Event) :
  ResizeArrow ∈ resizeListeners w -> ResizeArrow ∈ resizeListeners (step w e).
Proof.
  intros H. destruct e; simpl.
  - by rewrite start_resizeListeners.
  - exact H.
  - rewrite dispose_resizeListeners. apply list_elem_of_filter. by split.
  - by rewrite refresh_resizeListeners.
  - exact H.
Qed.

Lemma run_keeps_arrow (w : World) (es : list Event) :
  ResizeArrow ∈ resizeListeners w -> ResizeArrow ∈ resizeListeners (run w es).
Proof.
  revert w. induction es as [| e es IH]; intros w H; [exact H |].
  simpl. apply IH. by apply step_keeps_arrow.
Qed.

(** C6, what the code does.  The listener the constructor registers is
    the arrow function of line 70; [dispose] asks the window to remove
    [this.handleResize], a function that was never registered.  So after
    any run that ends with [dispose] the arrow function is still a
    'resize' listener of the window, and on a new instance [dispose]
    leaves the listeners that were there before it, untouched. *)
Theorem resize_listener_survives_dispose (o : Options.t) (now : Q)
    (ls : list Callback) (es : list Event) :
  ResizeArrow ∈
    resizeListeners (run (constructor o now ls) (es ++ [CallDispose])) /\
  (BoundHandleResize ∉ ls ->
   resizeListeners (dispose (constructor o now ls)) =
     resizeListeners (constructor o now ls)).
Proof.
  split.
  - apply run_keeps_arrow.
    destruct (constructor_loop o now ls) as (_ & _ & _ & ->).
    apply elem_of_app. right. apply list_elem_of_singleton. reflexivity.
  - intros Hls. rewrite dispose_resizeListeners.
    destruct (constructor_loop o now ls) as (_ & _ & _ & ->).
    rewrite filter_app. rewrite filter_cons_True by discriminate.
    rewrite filter_nil. f_equal.
    induction ls as [| x ls IH]; [reflexivity |].
    apply not_elem_of_cons in Hls as [Hx Hls].
    rewrite filter_cons_True by congruence. by rewrite IH.
Qed.
End Listener.

(** The coarse tunnel, disposed right after its construction. *)
Example listener_after_dispose :
  resizeListeners (dispose coarseTunnel) = [ResizeArrow].
Proof. vm_compute. reflexivity. Qed.

(** ** C4: which material a drawable holds *)

Section Materials.
Context {M : JSMath}.

(** In a reachable state section [k] still has the children the
    constructor gave it. *)
Lemma reachable_children (w : World) (k : nat) (s : Group) :
  reachable w -> tunnelSections w !! k = Some s ->
  (k < Config.bufferSize (config w))%nat /\
  children s =
    section_children (config w) (2 * k) (2 * k) (S (2 * k)) (S (2 * k)).
Proof.
  intros Hr Hs. destruct (reachable_inv w Hr) as (Hch & _ & _).
  assert (H : map children (tunnelSections w) !! k = Some (children s)).
  { change (map children (tunnelSections w)) with (children <$> tunnelSections w).
    by rewrite list_lookup_fmap, Hs. }
  rewrite Hch in H.
  change (map ?f ?l) with (f <$> l) in H. rewrite list_lookup_fmap in H.
  destruct (seq 0 (Config.bufferSize (config w)) !! k) as [k' |] eqn:E;
    [| discriminate].
  apply lookup_seq in E as [-> Hk]. simpl in H. split; [exact Hk |].
  injection H as H. rewrite <- H. reflexivity.
Qed.

(** C4, as the code has it.  In every reachable state, in every
    section [k]: the first [rings + 1] children are the rings and all of
    them hold one and the same material, the store cell [2k]; the last
    child is the line batch and it holds another material of its own,
    the cell [2k + 1]; both cells exist. *)
Theorem rings_share_lines_own (w : World) (k : nat) (s : Group) :
  reachable w -> tunnelSections w !! k = Some s ->
  let c := config w in
  List.length (children s) = S (S (Config.rings c)) /\
  (forall i, (i <= Config.rings c)%nat ->
     exists r, children s !! i = Some r /\ kind r = Line /\
               material r = (2 * k)%nat) /\
  (exists l, children s !! S (Config.rings c) = Some l /\
             kind l = LineSegments /\ material l = S (2 * k)) /\
  is_Some (materials w !! (2 * k)%nat) /\
  is_Some (materials w !! S (2 * k)).
Proof.
  intros Hr Hs c. destruct (reachable_children w k s Hr Hs) as [Hk Hch].
  destruct (reachable_inv w Hr) as (_ & Hlen & _).
  rewrite Hch. fold c. split; [apply section_children_length |].
  split; [| split; [| split]].
  - intros i Hi. eexists. split; [by apply section_children_ring |]. done.
  - eexists. split; [apply section_children_lines |]. done.
  - apply lookup_lt_is_Some. lia.
  - apply lookup_lt_is_Some. lia.
Qed.
End Materials.

(** C4 as stated fails: in section 0 of the instance [main.js] builds,
    ring 0 holds material 0 and the line batch, child 61, holds
    material 1. *)
Lemma line_batch_has_its_own_material :
  exists s r l,
    tunnelSections tunnel !! 0%nat = Some s /\
    children s !! 0%nat = Some r /\ kind r = Line /\
    children s !! 61%nat = Some l /\ kind l = LineSegments /\
    material r = 0%nat /\ material l = 1%nat /\ material r <> material l.
Proof.
  unfold tunnel. rewrite constructor_sections.
  eexists. eexists. eexists.
  split; [vm_compute; reflexivity |].
  split; [vm_compute; reflexivity |].
  split; [reflexivity |].
  split; [vm_compute; reflexivity |].
  repeat split. discriminate.
Qed.

Lemma tunnel_reachable (es : list Event) :
  reachable (M := approxMath) (run (M := approxMath) tunnel es).
Proof. exists mainOptions, 0, [], es. reflexivity. Qed.

Lemma rings_share_lines_own_witness :
  exists s, tunnelSections tunnel !! 1%nat = Some s /\
    forall i, (i <= 60)%nat ->
      exists r, children s !! i = Some r /\ kind r = Line /\ material r = 2%nat.
Proof.
  unfold tunnel at 1. rewrite constructor_sections.
  eexists. split; [vm_compute; reflexivity |].
  refine (proj1 (proj2 (rings_share_lines_own (M := approxMath) tunnel 1 _
                          (tunnel_reachable []) _))).
  unfold tunnel. rewrite constructor_sections. vm_compute. reflexivity.
Defined.

(** ** C5: the opacity a shared material ends up with *)

Section Sharing.
Context {M : JSMath}.

Lemma opacity_pass_snoc (c : Config.t) (z : Q) (cs : list Object3D)
    (ch : Object3D) (ms : list LineBasicMaterial) :
  opacity_pass c z (cs ++ [ch]) ms =
    set_child_opacity c z (opacity_pass c z cs ms) ch.
Proof.
  unfold opacity_pass. by rewrite fold_left_app.
Qed.

(** A pass leaves alone the materials none of the children holds. *)
Lemma opacity_pass_other (c : Config.t) (z : Q) (cs : list Object3D)
    (ms : list LineBasicMaterial) (m : nat) :
  last_holder m cs = None -> opacity_pass c z cs ms !! m = ms !! m.
Proof.
  unfold last_holder.
  induction cs as [| ch cs IH] using rev_ind; intros H; [reflexivity |].
  rewrite opacity_pass_snoc. rewrite filter_app in H.
  destruct (decide (material ch = m)) as [E | E].
  - rewrite filter_cons_True in H by exact E.
    rewrite filter_nil, last_snoc in H. discriminate.
  - rewrite filter_cons_False in H by exact E.
    rewrite filter_nil, app_nil_r in H.
    unfold set_child_opacity. rewrite list_lookup_alter_ne by exact E.
    by apply IH.
Qed.

(** After a pass, a material some child holds has the opacity computed
    for the last child that holds it. *)
Lemma opacity_pass_last (c : Config.t) (z : Q) (cs : list Object3D)
    (ms : list LineBasicMaterial) (m : nat) (ch : Object3D) :
  (m < List.length ms)%nat -> last_holder m cs = Some ch ->
  opacity <$> opacity_pass c z cs ms !! m = Some (fade c (position_z ch) z).
Proof.
  unfold last_holder. intros Hm. revert ch.
  induction cs as [| x cs IH] using rev_ind; intros ch H; [discriminate |].
  rewrite opacity_pass_snoc. rewrite filter_app in H.
  unfold set_child_opacity.
  destruct (decide (material x = m)) as [E | E].
  - rewrite filter_cons_True in H by exact E.
    rewrite filter_nil, last_snoc in H.
    injection H as ->. rewrite E, list_lookup_alter_eq.
    destruct (lookup_lt_is_Some_2 (opacity_pass c z cs ms) m) as [mat ->];
      [by rewrite opacity_pass_length | reflexivity].
  - rewrite filter_cons_False in H by exact E.
    rewrite filter_nil, app_nil_r in H.
    rewrite list_lookup_alter_ne by exact E. by apply IH.
Qed.

(** The passes of a frame leave alone the materials no section holds. *)
Lemma forEach_section_other (c : Config.t) (secs : list Group)
    (ms : list LineBasicMaterial) (m : nat) :
  Forall (fun s => last_holder m (children s) = None) secs ->
  (forEach_section c secs ms).2 !! m = ms !! m.
Proof.
  revert ms. induction secs as [| s secs IH]; intros ms H; [reflexivity |].
  apply Forall_cons in H as [Hs H]. simpl.
  specialize (IH (opacity_pass c (advance c (group_z s)) (children s) ms) H).
  destruct (forEach_section c secs _) as [rest ms']. simpl in *.
  rewrite IH. by apply opacity_pass_other.
Qed.

(** After a frame, a material held in section [k] and in no later
    section has the opacity computed for the last child of section [k]
    that holds it, at the section's new offset. *)
Lemma forEach_section_last (c : Config.t) (secs : list Group)
    (ms : list LineBasicMaterial) (k m : nat) (s : Group) (ch : Object3D) :
  (m < List.length ms)%nat -> secs !! k = Some s ->
  last_holder m (children s) = Some ch ->
  Forall (fun s' => last_holder m (children s') = None) (drop (S k) secs) ->
  opacity <$> (forEach_section c secs ms).2 !! m =
    Some (fade c (position_z ch) (advance c (group_z s))).
Proof.
  revert ms k. induction secs as [| s0 secs IH]; intros ms k Hm Hs Hch Hlater;
    [discriminate |].
  simpl.
  pose proof (IH (opacity_pass c (advance c (group_z s0)) (children s0) ms))
    as IH'.
  pose proof (forEach_section_other c secs
    (opacity_pass c (advance c (group_z s0)) (children s0) ms) m) as Hother.
  destruct (forEach_section c secs _) as [rest ms']. simpl in *.
  destruct k as [| k].
  - injection Hs as ->. rewrite (Hother Hlater).
    by apply opacity_pass_last.
  - apply (IH' k); [by rewrite opacity_pass_length | exact Hs | exact Hch |].
    exact Hlater.
Qed.

(** Which child holds which material in a section the constructor
    built. *)
Lemma ring_material_holders (c : Config.t) (g g' m m' x : nat) :
  m <> m' ->
  last_holder x (section_children c g m g' m') =
    if decide (x = m) then Some (ring c g m (Config.rings c))
    else if decide (x = m') then Some (lines g' m') else None.
Proof.
  intros Hne. unfold last_holder, section_children.
  rewrite filter_app.
  assert (Hrings : forall l,
    filter (fun o => material o = x) (map (ring c g m) l) =
      if decide (x = m) then map (ring c g m) l else []).
  { intros l. induction l as [| i l IHl]; [by destruct (decide (x = m)) |].
    simpl. rewrite filter_cons. simpl. rewrite IHl.
    destruct (decide (m = x)), (decide (x = m)); congruence. }
  rewrite Hrings, filter_cons, filter_nil. unfold lines at 1. cbn [material].
  destruct (decide (x = m)) as [-> | Hx].
  - destruct (decide (m' = m)) as [E | _]; [congruence |]. rewrite app_nil_r.
    rewrite seq_S, map_app. cbn [map]. apply last_snoc.
  - rewrite app_nil_l.
    destruct (decide (m' = x)), (decide (x = m')); try congruence; reflexivity.
Qed.

End Sharing.

Section SharedOpacity.
Context {M : JSMath}.


End SharedOpacity.


(** On the coarse tunnel: after the first frame the material of the
    rings of section 0 has the opacity computed for the ring at local
    position 25, below 0.4, although 0.7 was computed for the ring in the
    middle of the section. *)
Example first_frame_ring_opacity :
  let w := run (M := approxMath) coarseTunnel [CallStart] in
  (exists m, materials w !! 0%nat = Some m /\ opacity m < 4 # 10) /\
  fade (M := approxMath) (config w) 0 (1 # 2) == 7 # 10.
Proof.
  cbv zeta. split.
  - eexists. split; vm_compute; reflexivity.
  - vm_compute. reflexivity.
Qed.

(** ** C7: the vertices of the line batch *)

Lemma flat_map_block_length {A B} (f : A -> list B) (n : nat) (l : list A) :
  (forall a, List.length (f a) = n) ->
  List.length (flat_map f l) = (List.length l * n)%nat.
Proof.
  intros Hf. induction l as [| a l IH]; [reflexivity |].
  cbn [flat_map List.length]. rewrite length_app, Hf, IH. lia.
Qed.

Lemma flat_map_block_lookup {A B} (f : A -> list B) (n : nat) (l : list A)
    (i r : nat) (x : A) :
  (forall a, List.length (f a) = n) -> (r < n)%nat -> l !! i = Some x ->
  flat_map f l !! (i * n + r)%nat = f x !! r.
Proof.
  intros Hf Hr. revert i. induction l as [| a l IH]; intros i Hi;
    [discriminate |].
  cbn [flat_map]. destruct i as [| i].
  - injection Hi as ->. rewrite lookup_app_l by (rewrite Hf; lia).
    reflexivity.
  - rewrite lookup_app_r by (rewrite Hf; lia). rewrite Hf.
    replace (S i * n + r - n)%nat with (i * n + r)%nat by lia.
    by apply IH.
Qed.

Section Lines.
Context {M : JSMath}.

Lemma lineVertices_at_length (c : Config.t) (i : nat) :
  List.length (lineVertices_at c i) = (S steps * 3)%nat.
Proof.
  unfold lineVertices_at. cbv zeta.
  rewrite (flat_map_block_length _ 3) by reflexivity.
  by rewrite length_seq.
Qed.

Lemma lineVertices_lookup (c : Config.t) (i j d : nat) :
  (i < Config.segments c)%nat -> (j <= steps)%nat -> (d < 3)%nat ->
  lineVertices c !! (3 * (i * S steps + j) + d)%nat =
    match line_point c i j with (x, y, z) => [x; y; z] !! d end.
Proof.
  intros Hi Hj Hd.
  replace (3 * (i * S steps + j) + d)%nat
    with (i * (S steps * 3) + (j * 3 + d))%nat by lia.
  unfold lineVertices.
  rewrite (flat_map_block_lookup _ (S steps * 3) _ i (j * 3 + d) i);
    [| apply lineVertices_at_length | lia | by apply lookup_seq_lt].
  unfold lineVertices_at. cbv zeta.
  rewrite (flat_map_block_lookup _ 3 _ j d j);
    [| reflexivity | exact Hd | apply lookup_seq_lt; lia].
  reflexivity.
Qed.

Lemma lineVertices_vertex (c : Config.t) (i j : nat) :
  (i < Config.segments c)%nat -> (j <= steps)%nat ->
  vertex (lineVertices c) (i * S steps + j) = Some (line_point c i j).
Proof.
  intros Hi Hj. unfold vertex.
  pose proof (lineVertices_lookup c i j 0 Hi Hj) as H0.
  pose proof (lineVertices_lookup c i j 1 Hi Hj) as H1.
  pose proof (lineVertices_lookup c i j 2 Hi Hj) as H2.
  rewrite Nat.add_0_r in H0.
  rewrite H0, H1, H2 by lia.
  by destruct (line_point c i j) as [[x y] z].
Qed.

(** C7, what the code does.  The buffer of the line batch holds, for
    each pass [i < segments] of the outer loop, the 201 points of angle
    [theta_i], one after the other: vertex [201 i + j] is the point of
    angle [theta_i] at step [j].  As 201 is odd, the vertex pairs do not
    stay within one angle: the pair [100 + 201 m] joins the last point of
    angle [2m], at [z = length/2], to the first point of angle [2m + 1],
    at [z = -length/2]; with two angles or more, pair 100 (vertices 200
    and 201) is such a pair. *)
Theorem line_batch_vertices (c : Config.t) :
  List.length (lineVertices c) = (3 * (Config.segments c * 201))%nat /\
  (forall i j, (i < Config.segments c)%nat -> (j <= 200)%nat ->
     vertex (lineVertices c) (201 * i + j) = Some (line_point c i j)) /\
  (forall m, (2 * m + 1 < Config.segments c)%nat ->
     segment (lineVertices c) (100 + 201 * m) =
       Some (line_point c (2 * m) 200, line_point c (2 * m + 1) 0)).
Proof.
  split; [| split].
  - unfold lineVertices.
    rewrite (flat_map_block_length _ (S steps * 3))
      by apply lineVertices_at_length.
    rewrite length_seq. unfold steps. lia.
  - intros i j Hi Hj.
    replace (201 * i + j)%nat with (i * S steps + j)%nat
      by (unfold steps; lia).
    by apply lineVertices_vertex.
  - intros m Hm. unfold segment.
    replace (2 * (100 + 201 * m))%nat with (2 * m * S steps + 200)%nat
      by (unfold steps; lia).
    replace (2 * m * S steps + 200 + 1)%nat
      with ((2 * m + 1) * S steps + 0)%nat by (unfold steps; lia).
    rewrite !lineVertices_vertex by (unfold steps; lia).
    reflexivity.
Qed.
End Lines.

(** On the configuration of [main.js], pair 100 runs from a point of
    angle 0 at [z = 25] to a point of angle 1 at [z = -25]. *)
Example pair_100_crosses_angles :
  exists a b, segment (lineVertices (M := approxMath) defaultConfig) 100 = Some (a, b) /\
    a = line_point (M := approxMath) defaultConfig 0 200 /\
    b = line_point (M := approxMath) defaultConfig 1 0 /\
    a.2 == 25 /\ b.2 == -25 /\ ~ a.1.2 == b.1.2.
Proof.
  eexists. eexists. split.
  - unfold segment.
    change (2 * 100)%nat with (0 * S steps + 200)%nat.
    change (0 * S steps + 200 + 1)%nat with (1 * S steps + 0)%nat.
    rewrite !lineVertices_vertex by (unfold steps; simpl; lia).
    reflexivity.
  - split; [reflexivity |]. split; [reflexivity |].
    split; [vm_compute; reflexivity |]. split; [vm_compute; reflexivity |].
    vm_compute. discriminate.
Qed.

(** * Further properties of the code *)

(** ** Frames and the callback queue *)

Section Frames.
Context {M : JSMath}.

Lemma animate_renderCalls (t : Q) (w : World) :
  renderCalls (animate t w) =
    if isAnimating w then S (renderCalls w) else renderCalls w.
Proof.
  unfold animate. destruct (isAnimating w); [| reflexivity]. simpl.
  destruct (Clock_getDelta _ _) as [delta k]. simpl.
  destruct (forEach_section _ _ _) as [secs ms]. reflexivity.
Qed.

(** [k] queued calls of [this.animate] on a running instance. *)
Lemma invoke_animate_repeat (t : Q) (k : nat) (w0 : World) :
  isAnimating w0 = true ->
  let w' := fold_left (invoke t) (repeat BoundAnimate k) w0 in
  isAnimating w' = true /\
  config w' = config w0 /\
  frameRequests w' = frameRequests w0 ++ repeat BoundAnimate k /\
  renderCalls w' = (renderCalls w0 + k)%nat /\
  tunnelSections w' =
    Nat.iter k (map (advance_section (config w0))) (tunnelSections w0).
Proof.
  revert w0. induction k as [| k IH]; intros w0 Hrun; cbv zeta.
  - simpl. rewrite app_nil_r, Nat.add_0_r. done.
  - cbn [repeat fold_left invoke].
    destruct (IH (animate t w0)) as (H1 & H2 & H3 & H4 & H5);
      [by rewrite animate_isAnimating |].
    rewrite H1, H2, H3, H4, H5.
    rewrite animate_config, animate_frameRequests, animate_renderCalls,
      animate_sections, Hrun.
    rewrite Nat.iter_succ_r, <- app_assoc.
    repeat split. lia.
Qed.

(** X3.  A display refresh on a running instance with [k] calls of
    [this.animate] queued performs [k] frame steps: every section is
    advanced [k] times, the scene is rendered [k] times, and [k] calls
    are queued again.  The number of loops never changes by itself. *)
Theorem refresh_runs_every_queued_loop (t : Q) (k : nat) (w : World) :
  isAnimating w = true -> frameRequests w = repeat BoundAnimate k ->
  let w' := refresh t w in
  isAnimating w' = true /\
  frameRequests w' = repeat BoundAnimate k /\
  renderCalls w' = (renderCalls w + k)%nat /\
  tunnelSections w' =
    Nat.iter k (map (advance_section (config w))) (tunnelSections w).
Proof.
  intros Hrun Hq. cbv zeta. unfold refresh. rewrite Hq.
  destruct (invoke_animate_repeat t k (set_frameRequests [] w) Hrun)
    as (H1 & _ & H3 & H4 & H5).
  done.
Qed.

Lemma invoke_stopped (t : Q) (cbs : list Callback) (w0 : World) :
  isAnimating w0 = false -> fold_left (invoke t) cbs w0 = w0.
Proof.
  intros H. induction cbs as [| cb cbs IH]; [reflexivity |].
  simpl. destruct cb; simpl; try exact IH.
  by rewrite animate_stopped.
Qed.

(** X4.  On a stopped instance a display refresh only empties the queue,
    whatever is queued: no section moves, no opacity changes, nothing is
    rendered, nothing is queued again. *)
Theorem refresh_of_stopped_only_drains (t : Q) (w : World) :
  isAnimating w = false -> refresh t w = set_frameRequests [] w.
Proof.
  intros H. unfold refresh. by apply invoke_stopped.
Qed.

(** X5.  [stop] cancels nothing that is queued, and [start] after it
    queues one call more: a running instance with [k] calls queued that
    is stopped and started again before the next refresh has [k + 1]
    calls queued, and has rendered one more frame at once. *)
Theorem restart_adds_a_loop (k : nat) (w : World) :
  isAnimating w = true -> frameRequests w = repeat BoundAnimate k ->
  let w' := start (stop w) in
  isAnimating w' = true /\
  frameRequests w' = repeat BoundAnimate (S k) /\
  renderCalls w' = S (renderCalls w).
Proof.
  intros Hrun Hq. cbv zeta.
  rewrite (start_stopped (stop w)) by reflexivity.
  rewrite animate_isAnimating, animate_frameRequests, animate_renderCalls.
  simpl. rewrite Hq. split; [reflexivity |]. split; [| reflexivity].
  clear. induction k as [| k IH]; [reflexivity |]. simpl. by rewrite IH.
Qed.

(** A new instance, started, after the refreshes [ts]. *)
Lemma run_refreshes (ts : list Q) (w : World) :
  isAnimating w = true -> frameRequests w = [BoundAnimate] ->
  let w' := run w (map Refresh ts) in
  isAnimating w' = true /\
  config w' = config w /\
  frameRequests w' = [BoundAnimate] /\
  renderCalls w' = (renderCalls w + List.length ts)%nat /\
  tunnelSections w' =
    Nat.iter (List.length ts) (map (advance_section (config w)))
      (tunnelSections w).
Proof.
  revert w. induction ts as [| t ts IH]; intros w Hrun Hq; cbv zeta.
  - simpl. rewrite Nat.add_0_r. done.
  - cbn [map run fold_left step].
    pose proof (invoke_animate_repeat t 1 (set_frameRequests [] w) Hrun)
      as (H1 & H2 & H3 & H4 & H5).
    assert (E : refresh t w =
      fold_left (invoke t) (repeat BoundAnimate 1) (set_frameRequests [] w)).
    { unfold refresh. by rewrite Hq. }
    rewrite <- E in H1, H2, H3, H4, H5.
    destruct (IH (refresh t w) H1 H3) as (I1 & I2 & I3 & I4 & I5).
    unfold run in I1, I2, I3, I4, I5.
    rewrite I1, I2, I3, I4, I5, H2, H4, H5. simpl.
    rewrite <- Nat.iter_succ_r. repeat split. lia.
Qed.

(** X6.  A new instance that is started and then sees [n] display
    refreshes has one call queued, has rendered [n + 1] frames (the
    first one inside [start]) and has advanced every section [n + 1]
    times from the offset the constructor gave it. *)
Theorem started_instance_after_refreshes (o : Options.t) (now : Q)
    (ls : list Callback) (ts : list Q) :
  let w0 := constructor o now ls in
  let w := run w0 (CallStart :: map Refresh ts) in
  isAnimating w = true /\
  frameRequests w = [BoundAnimate] /\
  renderCalls w = S (List.length ts) /\
  tunnelSections w =
    Nat.iter (S (List.length ts)) (map (advance_section (config w0)))
      (tunnelSections w0).
Proof.
  cbv zeta. cbn [run fold_left step].
  destruct (constructor_loop o now ls) as (Ha & Hq & _ & _).
  set (w0 := constructor o now ls) in *.
  assert (Hrun : isAnimating (start w0) = true) by apply start_isAnimating.
  assert (Hq1 : frameRequests (start w0) = [BoundAnimate]).
  { rewrite (start_stopped w0 Ha), animate_frameRequests. simpl. by rewrite Hq. }
  destruct (run_refreshes ts (start w0) Hrun Hq1) as (I1 & I2 & I3 & I4 & I5).
  unfold run in I1, I2, I3, I4, I5. rewrite I1, I3, I4, I5.
  rewrite start_config, (start_stopped w0 Ha), animate_renderCalls,
    animate_sections.
  simpl. rewrite <- Nat.iter_succ_r.
  assert (Hrc : renderCalls w0 = 0%nat).
  { unfold w0, constructor, build_sections. by rewrite build_sections_prefix. }
  rewrite Hrc. done.
Qed.
End Frames.

Lemma refresh_runs_every_queued_loop_witness :
  let w := run (M := approxMath) coarseTunnel [CallStart; CallStop; CallStart] in
  renderCalls (refresh (M := approxMath) 0 w) = (renderCalls w + 2)%nat.
Proof.
  cbv zeta.
  refine (proj1 (proj2 (proj2 (refresh_runs_every_queued_loop (M := approxMath)
    0 2 (run (M := approxMath) coarseTunnel [CallStart; CallStop; CallStart])
    _ _)))); vm_compute; reflexivity.
Defined.

Lemma refresh_of_stopped_only_drains_witness :
  let w := run (M := approxMath) coarseTunnel [CallStart; CallStop] in
  refresh (M := approxMath) 0 w = set_frameRequests [] w.
Proof.
  cbv zeta.
  apply (refresh_of_stopped_only_drains (M := approxMath) 0
           (run (M := approxMath) coarseTunnel [CallStart; CallStop])).
  vm_compute. reflexivity.
Defined.

Lemma restart_adds_a_loop_witness :
  let w := run (M := approxMath) coarseTunnel [CallStart] in
  frameRequests (start (M := approxMath) (stop w)) = [BoundAnimate; BoundAnimate].
Proof.
  cbv zeta.
  refine (proj1 (proj2 (restart_adds_a_loop (M := approxMath) 1
    (run (M := approxMath) coarseTunnel [CallStart]) _ _)));
    vm_compute; reflexivity.
Defined.

(** ** The sections and the stores *)

Section Stores.
Context {M : JSMath}.

Lemma section_children_cells (c : Config.t) (g m g' m' : nat) (o : Object3D) :
  o ∈ section_children c g m g' m' ->
  (geometry o = g /\ material o = m /\ kind o = Line) \/
  (geometry o = g' /\ material o = m' /\ kind o = LineSegments).
Proof.
  unfold section_children. intros H.
  apply elem_of_app in H as [H | H].
  - apply list_elem_of_fmap in H as (i & -> & _). by left.
  - apply list_elem_of_singleton in H. subst o. by right.
Qed.

Lemma reachable_sections_length (w : World) :
  reachable w ->
  List.length (tunnelSections w) = Config.bufferSize (config w).
Proof.
  intros Hr. destruct (reachable_inv w Hr) as (Hch & _ & _).
  apply (f_equal (@List.length _)) in Hch.
  by rewrite !length_map, length_seq in Hch.
Qed.

(** X1.  What the constructor builds.  There are [bufferSize] sections,
    section [k] at offset [k * (length / bufferSize)] and in the scene;
    each section has geometries and materials of its own, two of each,
    and every material starts at [baseOpacity], not disposed. *)
Theorem constructor_layout (o : Options.t) (now : Q) (ls : list Callback) :
  let w := constructor o now ls in
  let c := config w in
  c = Object_assign defaultConfig o /\
  List.length (tunnelSections w) = Config.bufferSize c /\
  (forall k, (k < Config.bufferSize c)%nat ->
     exists s, tunnelSections w !! k = Some s /\
       group_z s = num k * (Config.length c / num (Config.bufferSize c)) /\
       k ∈ sceneChildren w) /\
  List.length (geometries w) = (2 * Config.bufferSize c)%nat /\
  List.length (materials w) = (2 * Config.bufferSize c)%nat /\
  Forall (fun m => opacity m = Config.baseOpacity c /\
                   material_disposed m = 0%nat) (materials w).
Proof.
  cbv zeta. rewrite constructor_config.
  set (c := Object_assign defaultConfig o).
  unfold constructor, build_sections. fold c.
  rewrite build_sections_prefix. cbn [tunnelSections sceneChildren geometries materials].
  rewrite length_map, length_seq, initial_geometries_length,
    initial_materials_length.
  repeat split.
  - intros k Hk. exists (section_at c k). split.
    + change (map ?f ?l) with (f <$> l). rewrite list_lookup_fmap.
      by rewrite lookup_seq_lt.
    + split; [reflexivity |]. apply elem_of_seq. lia.
  - unfold initial_materials. apply Forall_forall. intros m Hm.
    apply list_elem_of_In, in_flat_map in Hm as (i & _ & Hm).
    destruct Hm as [<- | [<- | []]]; done.
Qed.

(** X2.  No two sections share a geometry or a material.  In every
    reachable state a drawable of one section and a drawable of another
    hold different store cells. *)
Theorem sections_share_nothing (w : World) (j k : nat) (sj sk : Group)
    (a b : Object3D) :
  reachable w -> j <> k ->
  tunnelSections w !! j = Some sj -> tunnelSections w !! k = Some sk ->
  a ∈ children sj -> b ∈ children sk ->
  material a <> material b /\ geometry a <> geometry b.
Proof.
  intros Hr Hjk Hj Hk Ha Hb.
  destruct (reachable_children w j sj Hr Hj) as [_ Ej].
  destruct (reachable_children w k sk Hr Hk) as [_ Ek].
  rewrite Ej in Ha. rewrite Ek in Hb.
  apply section_children_cells in Ha, Hb.
  destruct Ha as [(-> & -> & _) | (-> & -> & _)],
           Hb as [(-> & -> & _) | (-> & -> & _)]; split; lia.
Qed.

(** The invariant as the frame step of [start] meets it, in a state
    between two reachable ones. *)
Lemma inv_children (w : World) (k : nat) (s : Group) :
  inv w -> tunnelSections w !! k = Some s ->
  (k < Config.bufferSize (config w))%nat /\
  children s =
    section_children (config w) (2 * k) (2 * k) (S (2 * k)) (S (2 * k)).
Proof.
  intros (Hch & _ & _) Hs.
  assert (H : map children (tunnelSections w) !! k = Some (children s)).
  { change (map children (tunnelSections w)) with (children <$> tunnelSections w).
    by rewrite list_lookup_fmap, Hs. }
  rewrite Hch in H.
  change (map ?f ?l) with (f <$> l) in H. rewrite list_lookup_fmap in H.
  destruct (seq 0 (Config.bufferSize (config w)) !! k) as [k' |] eqn:E;
    [| discriminate].
  apply lookup_seq in E as [-> Hk]. simpl in H. split; [exact Hk |].
  injection H as H. rewrite <- H. reflexivity.
Qed.

Lemma inv_later_sections (w : World) (k m : nat) :
  inv w -> m = (2 * k)%nat \/ m = S (2 * k) ->
  Forall (fun s' => last_holder m (children s') = None)
    (drop (S k) (tunnelSections w)).
Proof.
  intros Hi Hm. apply Forall_lookup. intros i s' Hs'.
  rewrite lookup_drop in Hs'.
  destruct (inv_children w _ s' Hi Hs') as [_ ->].
  rewrite ring_material_holders by lia.
  destruct Hm as [-> | ->]; repeat case_decide; (lia || reflexivity).
Qed.

(** Every cell of the material store is held by a child of the section
    it was made for. *)
Lemma every_material_is_held (w : World) (x : nat) :
  inv w -> (x < List.length (materials w))%nat ->
  exists k s ch, tunnelSections w !! k = Some s /\
    last_holder x (children s) = Some ch /\
    (x = (2 * k)%nat \/ x = S (2 * k)).
Proof.
  intros Hi Hx. pose proof Hi as (Hch & Hlen & _).
  rewrite Hlen in Hx.
  assert (Hn : List.length (tunnelSections w) = Config.bufferSize (config w)).
  { apply (f_equal (@List.length _)) in Hch.
    by rewrite !length_map, length_seq in Hch. }
  destruct (lookup_lt_is_Some_2 (tunnelSections w) (x / 2)) as [s Hs].
  { rewrite Hn. apply Nat.Div0.div_lt_upper_bound. lia. }
  destruct (inv_children w _ s Hi Hs) as [_ Hcs].
  pose proof (Nat.div_mod_eq x 2) as Hdm.
  assert (Hm : (x mod 2 < 2)%nat) by (apply Nat.mod_upper_bound; lia).
  exists (x / 2)%nat, s.
  rewrite Hcs, ring_material_holders by lia.
  repeat case_decide; [| | exfalso; lia];
    eexists; (split; [eassumption |]); (split; [reflexivity |]); lia.
Qed.

Lemma frame_writes_every_cell (t : Q) (w : World) :
  inv w -> isAnimating w = true ->
  written_by_frame (config w) (tunnelSections w) (materials (animate t w)).
Proof.
  intros Hi Hrun x m' Hm.
  rewrite animate_materials, Hrun in Hm.
  assert (Hx : (x < List.length (materials w))%nat).
  { apply lookup_lt_Some in Hm. by rewrite forEach_section_length in Hm. }
  destruct (every_material_is_held w x Hi Hx) as (k & s & ch & Hs & Hch & Hcell).
  pose proof (forEach_section_last (config w) (tunnelSections w) (materials w)
    k x s ch Hx Hs Hch (inv_later_sections w k x Hi Hcell)) as H.
  rewrite Hm in H. injection H as H.
  exists k, s, ch. done.
Qed.

(** X8.  A frame step writes every material.  In a reachable state of a
    valid configuration, after a running frame step, and after the frame
    step that [start] runs on a stopped instance (the first frame of a
    new one), the opacity of every material of the store is the value
    line 164 computes in that step for the last child holding it, at the
    new offset of its section; it lies between 0.2 and 0.7.  What was in
    the material before, [baseOpacity] at first, is not read: the value
    written reads the configuration through [length] only. *)
Theorem frame_overwrites_every_opacity (t : Q) (w : World) :
  reachable w -> valid_config (config w) ->
  (isAnimating w = true ->
     written_by_frame (config w) (tunnelSections w) (materials (animate t w))) /\
  (isAnimating w = false ->
     written_by_frame (config w) (tunnelSections w) (materials (start w))) /\
  (isAnimating w = true ->
     Forall (fun m => 2 # 10 <= opacity m /\ opacity m <= 7 # 10)
       (materials (animate t w))) /\
  (isAnimating w = false ->
     Forall (fun m => 2 # 10 <= opacity m /\ opacity m <= 7 # 10)
       (materials (start w))) /\
  (forall c' childZ sectionZ, Config.length c' = Config.length (config w) ->
     fade c' childZ sectionZ = fade (config w) childZ sectionZ).
Proof.
  intros Hr _. pose proof (reachable_inv w Hr) as Hi.
  assert (Hrunning : isAnimating w = true ->
    written_by_frame (config w) (tunnelSections w) (materials (animate t w))).
  { intros Hrun. by apply frame_writes_every_cell. }
  assert (Hstart : isAnimating w = false ->
    written_by_frame (config w) (tunnelSections w) (materials (start w))).
  { intros Hstop. rewrite (start_stopped w Hstop).
    apply (frame_writes_every_cell 0
      (set_clock (Clock_start (performance_now w) (clock w))
         (set_isAnimating true w))); [exact Hi | reflexivity]. }
  assert (Hbounds : forall ms, written_by_frame (config w) (tunnelSections w) ms ->
    Forall (fun m => 2 # 10 <= opacity m /\ opacity m <= 7 # 10) ms).
  { intros ms Hw. apply Forall_lookup. intros x m' Hm.
    destruct (Hw x m' Hm) as (k & s & ch & _ & _ & ->).
    unfold fade, opacity_at. apply max_min_bounds. lra. }
  split; [exact Hrunning |]. split; [exact Hstart |].
  split; [intros H; by apply Hbounds, Hrunning |].
  split; [intros H; by apply Hbounds, Hstart |].
  intros c' childZ sectionZ Hlen. unfold fade, opacity_at. by rewrite Hlen.
Qed.
End Stores.

Lemma sections_share_nothing_witness :
  exists sj sk a b,
    tunnelSections tunnel !! 0%nat = Some sj /\
    tunnelSections tunnel !! 1%nat = Some sk /\
    children sj !! 61%nat = Some a /\ children sk !! 0%nat = Some b /\
    material a <> material b /\ geometry a <> geometry b.
Proof.
  assert (H0 : tunnelSections tunnel !! 0%nat
               = Some (section_at defaultConfig 0)).
  { unfold tunnel. rewrite constructor_sections. reflexivity. }
  assert (H1 : tunnelSections tunnel !! 1%nat
               = Some (section_at defaultConfig 1)).
  { unfold tunnel. rewrite constructor_sections. reflexivity. }
  assert (Ha : children (section_at defaultConfig 0) !! 61%nat
               = Some (lines 1 1)) by (vm_compute; reflexivity).
  assert (Hb : children (section_at defaultConfig 1) !! 0%nat
               = Some (ring defaultConfig 2 2 0)) by reflexivity.
  eexists. eexists. eexists. eexists.
  split; [exact H0 |]. split; [exact H1 |]. split; [exact Ha |].
  split; [exact Hb |].
  apply (sections_share_nothing (M := approxMath) tunnel 0 1 _ _ _ _
           (tunnel_reachable []) ltac:(discriminate) H0 H1).
  - apply list_elem_of_lookup. eexists. exact Ha.
  - apply list_elem_of_lookup. eexists. exact Hb.
Defined.

Lemma frame_overwrites_every_opacity_witness :
  written_by_frame (M := approxMath) (config coarseTunnel)
    (tunnelSections coarseTunnel)
    (materials (start (M := approxMath) coarseTunnel)).
Proof.
  refine (proj1 (proj2 (frame_overwrites_every_opacity (M := approxMath) 0
    coarseTunnel (coarseTunnel_reachable []) (coarseTunnel_valid []))) _).
  vm_compute. reflexivity.
Defined.

(** On the coarse tunnel the first frame replaces the base opacity 0.5 of
    every material. *)
Example first_frame_replaces_base_opacity :
  map (fun m => Qred (opacity m)) (materials coarseTunnel)
    = [1 # 2; 1 # 2; 1 # 2; 1 # 2] /\
  forallb (fun m => negb (Qeq_bool (opacity m) (1 # 2)))
    (materials (start (M := approxMath) coarseTunnel)) = true.
Proof. split; vm_compute; reflexivity. Qed.

(** ** Disposal *)

Section Release.
Context {M : JSMath}.

Lemma dispose_children_materials (cs : list Object3D)
    (gs : list BufferGeometry) (ms : list LineBasicMaterial) (x : nat) :
  material_disposed <$> (fold_left dispose_child cs (gs, ms)).2 !! x =
    (fun n => (n + material_holders x cs)%nat) <$>
      (material_disposed <$> ms !! x).
Proof.
  revert gs ms. induction cs as [| ch cs IH]; intros gs ms.
  - simpl. destruct (ms !! x); simpl; [| reflexivity]. f_equal.
    unfold material_holders. simpl. lia.
  - cbn [fold_left dispose_child]. rewrite IH.
    unfold material_holders. rewrite filter_cons.
    destruct (decide (material ch = x)) as [-> | Hne].
    + rewrite list_lookup_alter_eq. destruct (ms !! x); simpl; [| reflexivity].
      f_equal. lia.
    + by rewrite list_lookup_alter_ne.
Qed.

Lemma dispose_children_geometries (cs : list Object3D)
    (gs : list BufferGeometry) (ms : list LineBasicMaterial) (x : nat) :
  geometry_disposed <$> (fold_left dispose_child cs (gs, ms)).1 !! x =
    (fun n => (n + geometry_holders x cs)%nat) <$>
      (geometry_disposed <$> gs !! x).
Proof.
  revert gs ms. induction cs as [| ch cs IH]; intros gs ms.
  - simpl. destruct (gs !! x); simpl; [| reflexivity]. f_equal.
    unfold geometry_holders. simpl. lia.
  - cbn [fold_left dispose_child]. rewrite IH.
    unfold geometry_holders. rewrite filter_cons.
    destruct (decide (geometry ch = x)) as [-> | Hne].
    + rewrite list_lookup_alter_eq. destruct (gs !! x); simpl; [| reflexivity].
      f_equal. lia.
    + by rewrite list_lookup_alter_ne.
Qed.

Lemma dispose_stores_materials (secs : list Group)
    (st : list BufferGeometry * list LineBasicMaterial) (x : nat) :
  material_disposed <$> (dispose_stores secs st).2 !! x =
    (fun n => (n + sum_list_with (fun s => material_holders x (children s)) secs)%nat)
      <$> (material_disposed <$> st.2 !! x).
Proof.
  revert st. induction secs as [| s secs IH]; intros [gs ms].
  - simpl. destruct (ms !! x); simpl; [| reflexivity]. f_equal. lia.
  - cbn [dispose_stores fold_left]. fold (dispose_stores secs).
    rewrite IH.
    destruct (fold_left dispose_child (children s) (gs, ms)) as [gs' ms'] eqn:E.
    pose proof (dispose_children_materials (children s) gs ms x) as H.
    rewrite E in H. simpl in *. rewrite H.
    destruct (ms !! x); simpl; [| reflexivity]. f_equal. lia.
Qed.

Lemma dispose_stores_geometries (secs : list Group)
    (st : list BufferGeometry * list LineBasicMaterial) (x : nat) :
  geometry_disposed <$> (dispose_stores secs st).1 !! x =
    (fun n => (n + sum_list_with (fun s => geometry_holders x (children s)) secs)%nat)
      <$> (geometry_disposed <$> st.1 !! x).
Proof.
  revert st. induction secs as [| s secs IH]; intros [gs ms].
  - simpl. destruct (gs !! x); simpl; [| reflexivity]. f_equal. lia.
  - cbn [dispose_stores fold_left]. fold (dispose_stores secs).
    rewrite IH.
    destruct (fold_left dispose_child (children s) (gs, ms)) as [gs' ms'] eqn:E.
    pose proof (dispose_children_geometries (children s) gs ms x) as H.
    rewrite E in H. simpl in *. rewrite H.
    destruct (gs !! x); simpl; [| reflexivity]. f_equal. lia.
Qed.

(** The loop of lines 200-206, its two effects apart: the stores, and
    the scene, which loses the indices of the sections. *)
Lemma dispose_sections_split (f : nat -> Group -> nat * Group)
    (secs : list Group) (sc : list nat)
    (st : list BufferGeometry * list LineBasicMaterial) :
  (forall i s, (f i s).2 = s) ->
  fold_left dispose_section (imap f secs) (sc, st) =
    (fold_left (fun sc i => filter (fun k => k <> i) sc)
       (imap (fun i s => (f i s).1) secs) sc,
     dispose_stores secs st).
Proof.
  intros Hf. revert f Hf sc st.
  induction secs as [| s secs IH]; intros f Hf sc st; [reflexivity |].
  cbn [imap fold_left dispose_section dispose_stores].
  rewrite (IH (f ∘ S)) by (intros i s'; apply Hf).
  rewrite Hf. reflexivity.
Qed.

Lemma removals_spec (l sc : list nat) (k : nat) :
  k ∈ fold_left (fun sc i => filter (fun k => k <> i) sc) l sc <->
  k ∈ sc /\ k ∉ l.
Proof.
  revert sc. induction l as [| i l IH]; intros sc.
  - simpl. split; [intros H; split; [exact H | apply not_elem_of_nil] | by intros []].
  - cbn [fold_left]. rewrite IH, list_elem_of_filter, not_elem_of_cons.
    split; [intros [[? ?] ?] | intros [? [? ?]]]; repeat split; auto.
Qed.

Lemma imap_indices {A B} (f : nat -> B) (l : list A) :
  imap (fun i _ => f i) l = map f (seq 0 (List.length l)).
Proof.
  revert f. induction l as [| a l IH]; intros f; [reflexivity |].
  cbn [imap List.length seq map]. f_equal.
  rewrite <- seq_shift, map_map. apply (IH (f ∘ S)).
Qed.

Lemma dispose_scene_stores (w : World) :
  sceneChildren (dispose w) =
    fold_left (fun sc i => filter (fun k => k <> i) sc)
      (seq 0 (List.length (tunnelSections w))) (sceneChildren w) /\
  (geometries (dispose w), materials (dispose w)) =
    dispose_stores (tunnelSections w) (geometries w, materials w) /\
  rendererDisposed (dispose w) = S (rendererDisposed w) /\
  renderCalls (dispose w) = renderCalls w.
Proof.
  unfold dispose.
  pose proof (dispose_sections_split pair
    (tunnelSections (removeEventListener BoundHandleResize (stop w)))
    (sceneChildren (removeEventListener BoundHandleResize (stop w)))
    (geometries (removeEventListener BoundHandleResize (stop w)),
     materials (removeEventListener BoundHandleResize (stop w)))
    ltac:(reflexivity)) as H.
  rewrite (imap_indices (fun i => i)), map_id in H.
  destruct (fold_left dispose_section _ _) as [sc [gs ms]].
  injection H as -> H. simpl in *. by rewrite H.
Qed.

Lemma inv_scene_constructor (o : Options.t) (now : Q) (ls : list Callback) :
  inv_scene (constructor o now ls).
Proof.
  unfold inv_scene. rewrite constructor_config.
  unfold constructor, build_sections. rewrite build_sections_prefix.
  cbn [geometries sceneChildren tunnelSections].
  split; [apply initial_geometries_length |].
  apply Forall_forall. intros i Hi. by apply elem_of_seq in Hi as [_ Hi].
Qed.

Lemma animate_scene (t : Q) (w : World) :
  geometries (animate t w) = geometries w /\
  sceneChildren (animate t w) = sceneChildren w /\
  rendererDisposed (animate t w) = rendererDisposed w /\
  map geometry_disposed (geometries (animate t w))
    = map geometry_disposed (geometries w) /\
  map material_disposed (materials (animate t w))
    = map material_disposed (materials w).
Proof.
  assert (Hpass : forall c z cs ms,
    map material_disposed (opacity_pass c z cs ms) = map material_disposed ms).
  { intros c z cs. induction cs as [| ch cs IH]; intros ms; [reflexivity |].
    unfold opacity_pass in *. cbn [fold_left]. rewrite IH.
    unfold set_child_opacity. apply list_eq. intros i.
    change (map ?f ?l) with (f <$> l). rewrite !list_lookup_fmap.
    destruct (decide (material ch = i)) as [-> | Hne].
    - rewrite list_lookup_alter_eq. by destruct (ms !! i).
    - by rewrite list_lookup_alter_ne. }
  assert (Hall : forall c secs ms,
    map material_disposed (forEach_section c secs ms).2 = map material_disposed ms).
  { intros c secs. induction secs as [| s secs IH]; intros ms; [reflexivity |].
    simpl.
    specialize (IH (opacity_pass c (advance c (group_z s)) (children s) ms)).
    destruct (forEach_section c secs _) as [rest ms']. simpl in *.
    by rewrite IH, Hpass. }
  rewrite animate_materials.
  unfold animate. destruct (isAnimating w); [| done]. simpl.
  destruct (Clock_getDelta _ _) as [delta k]. simpl.
  specialize (Hall (config w) (tunnelSections w) (materials w)).
  destruct (forEach_section _ _ _) as [secs ms]. simpl in *. done.
Qed.

Lemma inv_scene_animate (t : Q) (w : World) : inv_scene w -> inv_scene (animate t w).
Proof.
  intros [Hg Hs]. unfold inv_scene.
  destruct (animate_scene t w) as (-> & -> & _).
  rewrite animate_config, animate_sections.
  split; [exact Hg |]. destruct (isAnimating w); [| exact Hs].
  by rewrite length_map.
Qed.

Lemma inv_scene_dispose (w : World) : inv_scene w -> inv_scene (dispose w).
Proof.
  intros [Hg Hs]. unfold inv_scene.
  destruct (dispose_scene_stores w) as (Hsc & Hst & _).
  destruct (dispose_sections w) as (-> & -> & _).
  split.
  - assert (E : geometries (dispose w)
              = (dispose_stores (tunnelSections w) (geometries w, materials w)).1)
      by (by rewrite <- Hst).
    rewrite E, <- Hg. clear.
    generalize (geometries w) (materials w).
    induction (tunnelSections w) as [| s secs IH]; intros gs ms; [reflexivity |].
    cbn [dispose_stores fold_left]. fold (dispose_stores secs).
    destruct (fold_left dispose_child (children s) (gs, ms)) as [gs' ms'] eqn:E.
    rewrite IH.
    assert (H : forall cs gs ms,
      List.length (fold_left dispose_child cs (gs, ms)).1 = List.length gs).
    { clear. intros cs. induction cs as [| ch cs IHc]; intros gs ms; [reflexivity |].
      cbn [fold_left dispose_child]. by rewrite IHc, length_alter. }
    specialize (H (children s) gs ms). by rewrite E in H.
  - rewrite Hsc. apply Forall_forall. intros i Hi.
    apply removals_spec in Hi as [Hi _].
    rewrite Forall_forall in Hs. by apply Hs.
Qed.

Lemma inv_scene_step (w : World) (e : Event) : inv_scene w -> inv_scene (step w e).
Proof.
  intros H. destruct e; simpl.
  - unfold start. destruct (isAnimating w); [exact H |].
    apply inv_scene_animate. exact H.
  - exact H.
  - by apply inv_scene_dispose.
  - unfold refresh.
    assert (H0 : inv_scene (set_frameRequests [] w)) by exact H.
    revert H0. generalize (set_frameRequests [] w). clear H.
    induction (frameRequests w) as [| cb cbs IH]; intros w0 H0; [exact H0 |].
    simpl. apply IH. destruct cb; simpl; try exact H0.
    by apply inv_scene_animate.
  - exact H.
Qed.

Lemma reachable_inv_scene (w : World) : reachable w -> inv_scene w.
Proof.
  intros (o & now & ls & es & ->).
  generalize (inv_scene_constructor o now ls).
  generalize (constructor o now ls). induction es as [| e es IH]; intros w H;
    [exact H |].
  simpl. apply IH. by apply inv_scene_step.
Qed.

Lemma sum_single {A} (f : A -> nat) (l : list A) (k : nat) (a : A) :
  l !! k = Some a ->
  (forall j b, j <> k -> l !! j = Some b -> f b = 0%nat) ->
  sum_list_with f l = f a.
Proof.
  revert k. induction l as [| x l IH]; intros k Hk Hz; [discriminate |].
  cbn [sum_list_with]. destruct k as [| k].
  - injection Hk as ->.
    assert (E : sum_list_with f l = 0%nat).
    { clear IH. induction l as [| y l IHl]; [reflexivity |].
      cbn [sum_list_with].
      rewrite (Hz 1%nat y) by done.
      rewrite IHl; [reflexivity |].
      intros [| j] b Hj Hb; [done |]. destruct j as [| j].
      - eapply (Hz 2%nat); [lia |]. exact Hb.
      - eapply (Hz (S (S (S j)))); [lia |]. exact Hb. }
    lia.
  - rewrite (Hz 0%nat x) by done.
    rewrite (IH k Hk); [reflexivity |].
    intros j b Hj Hb. apply (Hz (S j)); [lia | exact Hb].
Qed.

Lemma holders_of_section (c : Config.t) (g m g' m' x : nat) :
  g <> g' -> m <> m' ->
  material_holders x (section_children c g m g' m') =
    (if decide (x = m) then S (Config.rings c)
     else if decide (x = m') then 1 else 0)%nat /\
  geometry_holders x (section_children c g m g' m') =
    (if decide (x = g) then S (Config.rings c)
     else if decide (x = g') then 1 else 0)%nat.
Proof.
  intros Hg Hm. unfold material_holders, geometry_holders, section_children.
  rewrite !filter_app, !length_app.
  assert (Hmat : forall l,
    List.length (filter (fun o => material o = x) (map (ring c g m) l)) =
      if decide (x = m) then List.length l else 0%nat).
  { intros l. induction l as [| i l IHl]; [by destruct (decide (x = m)) |].
    cbn [map]. rewrite filter_cons. cbn [material ring].
    destruct (decide (m = x)), (decide (x = m)); try congruence;
      cbn [List.length]; by rewrite IHl. }
  assert (Hgeo : forall l,
    List.length (filter (fun o => geometry o = x) (map (ring c g m) l)) =
      if decide (x = g) then List.length l else 0%nat).
  { intros l. induction l as [| i l IHl]; [by destruct (decide (x = g)) |].
    cbn [map]. rewrite filter_cons. cbn [geometry ring].
    destruct (decide (g = x)), (decide (x = g)); try congruence;
      cbn [List.length]; by rewrite IHl. }
  rewrite Hmat, Hgeo, length_seq, !filter_cons, !filter_nil.
  unfold lines. cbn [material geometry].
  split; repeat case_decide; cbn [List.length]; (congruence || lia).
Qed.

(** X9.  What one call of [dispose] releases.  In a reachable state it
    stops the loop, removes every section from the scene, disposes the
    renderer once, and for each section [k] calls [dispose()] on the ring
    geometry and on the ring material [rings + 1] times each (once per
    ring that holds them) and on the line geometry and the line material
    once each. *)
Theorem dispose_releases (w : World) (k : nat) :
  reachable w -> (k < Config.bufferSize (config w))%nat ->
  let w' := dispose w in
  let r := S (Config.rings (config w)) in
  isAnimating w' = false /\
  sceneChildren w' = [] /\
  rendererDisposed w' = S (rendererDisposed w) /\
  (exists n, material_disposals w (2 * k) = Some n /\
             material_disposals w' (2 * k) = Some (n + r)%nat) /\
  (exists n, geometry_disposals w (2 * k) = Some n /\
             geometry_disposals w' (2 * k) = Some (n + r)%nat) /\
  (exists n, material_disposals w (S (2 * k)) = Some n /\
             material_disposals w' (S (2 * k)) = Some (n + 1)%nat) /\
  (exists n, geometry_disposals w (S (2 * k)) = Some n /\
             geometry_disposals w' (S (2 * k)) = Some (n + 1)%nat).
Proof.
  intros Hr Hk w' r. subst w'.
  destruct (dispose_scene_stores w) as (Hsc & Hst & Hrd & _).
  destruct (reachable_inv w Hr) as (_ & Hml & _).
  destruct (reachable_inv_scene w Hr) as [Hgl Hscene].
  pose proof (reachable_sections_length w Hr) as Hn.
  destruct (lookup_lt_is_Some_2 (tunnelSections w) k) as [s Hs]; [lia |].
  assert (Hcount : forall x, x = (2 * k)%nat \/ x = S (2 * k) ->
    sum_list_with (fun s => material_holders x (children s)) (tunnelSections w)
      = (if decide (x = (2 * k)%nat) then r else 1%nat) /\
    sum_list_with (fun s => geometry_holders x (children s)) (tunnelSections w)
      = (if decide (x = (2 * k)%nat) then r else 1%nat)).
  { intros x Hx.
    destruct (reachable_children w k s Hr Hs) as [_ Hch].
    split.
    - rewrite (sum_single _ _ k s Hs).
      + rewrite Hch. destruct (holders_of_section (config w) (2 * k) (2 * k)
          (S (2 * k)) (S (2 * k)) x) as [-> _]; [lia | lia |].
        destruct Hx as [-> | ->]; repeat case_decide; (lia || reflexivity).
      + intros j b Hj Hb. destruct (reachable_children w j b Hr Hb) as [_ ->].
        destruct (holders_of_section (config w) (2 * j) (2 * j)
          (S (2 * j)) (S (2 * j)) x) as [-> _]; [lia | lia |].
        destruct Hx as [-> | ->]; repeat case_decide; (lia || reflexivity).
    - rewrite (sum_single _ _ k s Hs).
      + rewrite Hch. destruct (holders_of_section (config w) (2 * k) (2 * k)
          (S (2 * k)) (S (2 * k)) x) as [_ ->]; [lia | lia |].
        destruct Hx as [-> | ->]; repeat case_decide; (lia || reflexivity).
      + intros j b Hj Hb. destruct (reachable_children w j b Hr Hb) as [_ ->].
        destruct (holders_of_section (config w) (2 * j) (2 * j)
          (S (2 * j)) (S (2 * j)) x) as [_ ->]; [lia | lia |].
        destruct Hx as [-> | ->]; repeat case_decide; (lia || reflexivity). }
  assert (Hmat : forall x, x = (2 * k)%nat \/ x = S (2 * k) ->
    exists n, material_disposals w x = Some n /\
      material_disposals (dispose w) x
        = Some (n + (if decide (x = (2 * k)%nat) then r else 1))%nat).
  { intros x Hx. unfold material_disposals.
    destruct (lookup_lt_is_Some_2 (materials w) x) as [m Hm];
      [destruct Hx; lia |].
    exists (material_disposed m). rewrite Hm. split; [reflexivity |].
    pose proof (dispose_stores_materials (tunnelSections w)
      (geometries w, materials w) x) as H.
    rewrite <- Hst in H. cbn [snd] in H. rewrite H, Hm. simpl.
    by destruct (Hcount x Hx) as [-> _]. }
  assert (Hgeo : forall x, x = (2 * k)%nat \/ x = S (2 * k) ->
    exists n, geometry_disposals w x = Some n /\
      geometry_disposals (dispose w) x
        = Some (n + (if decide (x = (2 * k)%nat) then r else 1))%nat).
  { intros x Hx. unfold geometry_disposals.
    destruct (lookup_lt_is_Some_2 (geometries w) x) as [g Hg];
      [destruct Hx; lia |].
    exists (geometry_disposed g). rewrite Hg. split; [reflexivity |].
    pose proof (dispose_stores_geometries (tunnelSections w)
      (geometries w, materials w) x) as H.
    rewrite <- Hst in H. cbn [fst] in H. rewrite H, Hg. simpl.
    by destruct (Hcount x Hx) as [_ ->]. }
  split; [apply dispose_loop |]. split; [| split; [exact Hrd |]].
  - destruct (sceneChildren (dispose w)) as [| i sc] eqn:E; [reflexivity |].
    exfalso. assert (Hi : i ∈ i :: sc) by apply list_elem_of_here.
    rewrite Hsc in Hi. apply removals_spec in Hi as [Hi Hout].
    rewrite Forall_forall in Hscene. specialize (Hscene i Hi).
    apply Hout, elem_of_seq. lia.
  - destruct (Hmat (2 * k)%nat) as (n1 & E1 & D1); [by left |].
    destruct (Hgeo (2 * k)%nat) as (n2 & E2 & D2); [by left |].
    destruct (Hmat (S (2 * k))) as (n3 & E3 & D3); [by right |].
    destruct (Hgeo (S (2 * k))) as (n4 & E4 & D4); [by right |].
    rewrite decide_True in D1, D2 by reflexivity.
    rewrite decide_False in D3, D4 by lia.
    repeat split; eexists; eauto.
Qed.
End Release.

Lemma dispose_releases_witness :
  let w := run (M := approxMath) coarseTunnel [CallStart] in
  material_disposals (dispose w) 0 = Some 5%nat /\
  material_disposals (dispose w) 1 = Some 1%nat /\
  sceneChildren (dispose w) = [].
Proof.
  cbv zeta.
  destruct (dispose_releases (M := approxMath)
    (run (M := approxMath) coarseTunnel [CallStart]) 0
    (coarseTunnel_reachable [CallStart]) ltac:(vm_compute; lia))
    as (_ & Hs & _ & (n1 & E1 & H1) & _ & (n3 & E3 & H3) & _).
  vm_compute in E1, E3. injection E1 as <-. injection E3 as <-.
  split; [exact H1 |]. split; [exact H3 | exact Hs].
Defined.

(** ** The two vertex buffers *)

Section Buffers.
Context {M : JSMath}.

(** X10.  The ring outline.  Its buffer holds [segmentDetail + 1] vertices,
    vertex [i] is the point of the circle at the angle
    [(i / segmentDetail) * 2 pi], every vertex has [z = 0], and there is
    no vertex after the last one: with the first angle 0 and the last
    [2 pi], the outline is drawn closed. *)
Theorem ring_outline (c : Config.t) :
  List.length (ringVertices c) = (3 * S (Config.segmentDetail c))%nat /\
  (forall i, (i <= Config.segmentDetail c)%nat ->
     vertex (ringVertices c) i = Some (ring_point c i) /\
     (ring_point c i).2 = 0) /\
  (forall i, (Config.segmentDetail c < i)%nat ->
     vertex (ringVertices c) i = None) /\
  ((0 < Config.segmentDetail c)%nat ->
     (num 0 / num (Config.segmentDetail c)) * Math_PI * 2 == 0 /\
     (num (Config.segmentDetail c) / num (Config.segmentDetail c))
       * Math_PI * 2 == Math_PI * 2).
Proof.
  assert (Hlen : List.length (ringVertices c) = (3 * S (Config.segmentDetail c))%nat).
  { unfold ringVertices.
    rewrite (flat_map_block_length _ 3) by reflexivity.
    rewrite length_seq. lia. }
  split; [exact Hlen |]. split; [| split].
  - intros i Hi. split; [| reflexivity].
    assert (H : forall d, (d < 3)%nat ->
      ringVertices c !! (3 * i + d)%nat =
        match ring_point c i with (x, y, z) => [x; y; z] !! d end).
    { intros d Hd. replace (3 * i + d)%nat with (i * 3 + d)%nat by lia.
      unfold ringVertices.
      rewrite (flat_map_block_lookup _ 3 _ i d i);
        [reflexivity | reflexivity | exact Hd | apply lookup_seq_lt; lia]. }
    unfold vertex. pose proof (H 0%nat) as H0. rewrite Nat.add_0_r in H0.
    rewrite H0, (H 1%nat), (H 2%nat) by lia. reflexivity.
  - intros i Hi. unfold vertex.
    rewrite (lookup_ge_None_2 (ringVertices c) (3 * i)) by (rewrite Hlen; lia).
    reflexivity.
  - intros Hpos. pose proof (num_pos _ Hpos) as Hn.
    split; [unfold num at 1; simpl; field; lra | field; lra].
Qed.

Lemma line_vertex_in_range (c : Config.t) (n : nat) :
  (n < Config.segments c * S steps)%nat ->
  vertex (lineVertices c) n = Some (line_point c (pass_of n) (step_of n)).
Proof.
  intros Hn. unfold pass_of, step_of.
  pose proof (Nat.div_mod_eq n (S steps)) as Hdm.
  assert (Hm : (n mod S steps < S steps)%nat) by (apply Nat.mod_upper_bound; lia).
  rewrite Hdm at 1. rewrite (Nat.mul_comm (S steps)).
  apply lineVertices_vertex; [| lia].
  apply Nat.Div0.div_lt_upper_bound. lia.
Qed.

(** X11.  Which line segments the batch draws.  For every vertex pair [k]
    within the buffer, with [i] the angle and [j] the step of its first
    vertex: [i + j] is even; if [j < 200] the segment joins step [j] to
    step [j + 1] at angle [i]; if [j = 200] it joins the end of angle [i]
    to the start of angle [i + 1].  So along one angle only every second
    piece between two steps is drawn (those with [i + j] even), the
    others never are; and past the buffer there is no segment. *)
Theorem line_batch_segments (c : Config.t) (k : nat) :
  let i := pass_of (2 * k) in
  let j := step_of (2 * k) in
  ((2 * k + 1 < Config.segments c * 201)%nat ->
     Nat.even (i + j) = true /\
     ((j < 200)%nat ->
        segment (lineVertices c) k =
          Some (line_point c i j, line_point c i (S j))) /\
     (j = 200%nat ->
        segment (lineVertices c) k =
          Some (line_point c i 200, line_point c (S i) 0))) /\
  ((Config.segments c * 201 <= 2 * k + 1)%nat ->
     segment (lineVertices c) k = None).
Proof.
  cbv zeta. unfold pass_of, step_of.
  change (S steps) with 201%nat.
  pose proof (Nat.div_mod_eq (2 * k) 201) as Hdm.
  assert (Hm : ((2 * k) mod 201 < 201)%nat) by (apply Nat.mod_upper_bound; lia).
  set (i := ((2 * k) / 201)%nat) in *. set (j := ((2 * k) mod 201)%nat) in *.
  split.
  - intros Hk.
    assert (Hfirst : vertex (lineVertices c) (2 * k) = Some (line_point c i j)).
    { rewrite line_vertex_in_range by (change (S steps) with 201%nat; lia).
      reflexivity. }
    split; [| split].
    + apply Nat.even_spec. exists (k - 100 * i)%nat. lia.
    + intros Hj. unfold segment. rewrite Hfirst.
      replace (2 * k + 1)%nat with (i * S steps + S j)%nat
        by (change (S steps) with 201%nat; lia).
      rewrite lineVertices_vertex;
        [reflexivity | | unfold steps; lia].
      apply Nat.Div0.div_lt_upper_bound. lia.
    + intros Hj. unfold segment. rewrite Hfirst, Hj.
      replace (2 * k + 1)%nat with (S i * S steps + 0)%nat
        by (change (S steps) with 201%nat; lia).
      rewrite lineVertices_vertex; [reflexivity | lia | lia].
  - intros Hk. unfold segment.
    assert (Hnone : vertex (lineVertices c) (2 * k + 1) = None).
    { unfold vertex.
      rewrite (lookup_ge_None_2 (lineVertices c) (3 * (2 * k + 1))); [reflexivity |].
      unfold lineVertices.
      rewrite (flat_map_block_length _ (S steps * 3))
        by apply lineVertices_at_length.
      rewrite length_seq. change (S steps) with 201%nat. lia. }
    rewrite Hnone. by destruct (vertex (lineVertices c) (2 * k)).
Qed.
End Buffers.

(** ** The resize path *)

Lemma run_handleResize_timers (v : View) :
  timers (run_handleResize v) = timers v /\
  resizeTimeout (run_handleResize v) = resizeTimeout v /\
  nextTimer (run_handleResize v) = nextTimer v /\
  parentElement (run_handleResize v) = parentElement v.
Proof.
  unfold run_handleResize, handleResize.
  destruct (parentElement v) eqn:E; simpl; rewrite ?E; done.
Qed.

Lemma run_handleResize_tracked (v : View) :
  timers_tracked v -> timers_tracked (run_handleResize v).
Proof.
  unfold timers_tracked.
  destruct (run_handleResize_timers v) as (-> & -> & -> & _). done.
Qed.

(** Under the invariant the timeout the arrow function clears, if any,
    is the only one pending. *)
Lemma resize_arrow_timers (now : Q) (v : View) :
  timers_tracked v ->
  timers (resize_arrow now v) = [(nextTimer v, now + 100)] /\
  resizeTimeout (resize_arrow now v) = Some (nextTimer v) /\
  timers_tracked (resize_arrow now v).
Proof.
  intros [Hpos Htr]. unfold resize_arrow.
  assert (Hclear :
    match resizeTimeout v with
    | Some (S i) => clearTimeout (S i) (timers v)
    | _ => timers v
    end = []).
  { destruct (timers v) as [| tm tms] eqn:E.
    - by destruct (resizeTimeout v) as [[| i] |].
    - pose proof Htr as Hall. apply Forall_cons in Htr as [[Hid Hp] _].
      rewrite Hid. destruct (fst tm) as [| i] eqn:Ei; [lia |].
      unfold clearTimeout. clear E.
      induction Hall as [| x l [Hx _] _ IH]; [reflexivity |].
      rewrite filter_cons_False; [exact IH |].
      intros Hne. apply Hne. rewrite Hid in Hx. by injection Hx. }
  rewrite Hclear. cbn [timers resizeTimeout set_timers app].
  split; [reflexivity |]. split; [reflexivity |].
  split; cbn [nextTimer timers resizeTimeout set_timers]; [lia |].
  apply Forall_cons. split; [by split |]. apply Forall_nil_2.
Qed.

Lemma fire_due_tracked (now : Q) (v : View) :
  timers_tracked v -> timers_tracked (fire_due now v).
Proof.
  intros [Hpos Htr]. unfold fire_due.
  assert (H0 : timers_tracked
    (set_timers (resizeTimeout v)
       (List.filter (fun t => negb (is_due now t)) (timers v)) (nextTimer v) v)).
  { split; [exact Hpos |]. cbn [timers resizeTimeout set_timers].
    apply Forall_forall. intros t Ht.
    apply list_elem_of_In, filter_In in Ht as [Ht _].
    rewrite Forall_forall in Htr. by apply Htr, list_elem_of_In. }
  revert H0. generalize (set_timers (resizeTimeout v)
       (List.filter (fun t => negb (is_due now t)) (timers v)) (nextTimer v) v).
  induction (List.filter (is_due now) (timers v)) as [| t l IH]; intros v0 H0;
    [exact H0 |].
  simpl. apply IH. by apply run_handleResize_tracked.
Qed.

Lemma call_listener_tracked (now : Q) (v : View) (cb : Callback) :
  timers_tracked v -> timers_tracked (call_listener now v cb).
Proof.
  intros H. destruct cb; simpl; try exact H.
  - by apply run_handleResize_tracked.
  - by apply resize_arrow_timers.
Qed.

Lemma dispatch_resize_tracked (ls : list Callback) (now : Q) (v : View) :
  timers_tracked v -> timers_tracked (dispatch_resize ls now v).
Proof.
  unfold dispatch_resize. revert v.
  induction ls as [| cb ls IH]; intros v H; [exact H |].
  simpl. by apply IH, call_listener_tracked.
Qed.

Lemma fold_handleResize_timers {A} (l : list A) (v : View) :
  timers (fold_left (fun v _ => run_handleResize v) l v) = timers v /\
  resizeTimeout (fold_left (fun v _ => run_handleResize v) l v) = resizeTimeout v /\
  nextTimer (fold_left (fun v _ => run_handleResize v) l v) = nextTimer v /\
  parentElement (fold_left (fun v _ => run_handleResize v) l v) = parentElement v.
Proof.
  revert v. induction l as [| a l IH]; intros v; [done |].
  simpl. destruct (IH (run_handleResize v)) as (-> & -> & -> & ->).
  apply run_handleResize_timers.
Qed.

Lemma fire_due_timers (now : Q) (v : View) :
  timers (fire_due now v) =
    List.filter (fun t => negb (is_due now t)) (timers v).
Proof.
  unfold fire_due.
  by destruct (fold_handleResize_timers (List.filter (is_due now) (timers v))
    (set_timers (resizeTimeout v)
       (List.filter (fun t => negb (is_due now t)) (timers v)) (nextTimer v) v))
    as (-> & _).
Qed.

Lemma length_filter_le {A} (f : A -> bool) (l : list A) :
  (List.length (List.filter f l) <= List.length l)%nat.
Proof.
  induction l as [| a l IH]; [reflexivity |].
  simpl. destruct (f a); simpl; lia.
Qed.

Lemma debounced_step (ls : list Callback) (v : View) (e : ViewEvent) :
  debounced v -> debounced (view_step ls v e).
Proof.
  intros [Htr Hlen]. destruct e as [now | now | p]; simpl.
  - unfold dispatch_resize. revert v Htr Hlen.
    induction ls as [| cb ls IH]; intros v Htr Hlen; [by split |].
    cbn [fold_left]. apply IH; [by apply call_listener_tracked |].
    destruct cb; cbn [call_listener]; try exact Hlen.
    + by destruct (run_handleResize_timers v) as (-> & _).
    + destruct (resize_arrow_timers now v Htr) as (-> & _). reflexivity.
  - split; [by apply fire_due_tracked |].
    rewrite fire_due_timers.
    pose proof (length_filter_le (fun t => negb (is_due now t)) (timers v)). lia.
  - by split.
Qed.

(** X12.  The debounce keeps at most one timeout.  Whatever resize events,
    passages of time and changes of layout follow the construction, and
    whatever else listens to 'resize', at most one timeout of
    [handleResize] is pending, and it is the one [this.resizeTimeout]
    names (timer ids being positive, as the host's are). *)
Theorem at_most_one_timeout_pending (container : Container) (dpr : Q)
    (first : nat) (ls : list Callback) (es : list ViewEvent) :
  (0 < first)%nat ->
  let v := fold_left (view_step ls) es (new_View container dpr first) in
  (List.length (timers v) <= 1)%nat /\
  (forall t, t ∈ timers v -> resizeTimeout v = Some (fst t)).
Proof.
  intros Hfirst v.
  assert (H : debounced v).
  { subst v.
    assert (H0 : debounced (new_View container dpr first)).
    { split; [split; [exact Hfirst | apply Forall_nil_2] | simpl; lia]. }
    revert H0. generalize (new_View container dpr first).
    induction es as [| e es IH]; intros v0 H0; [exact H0 |].
    simpl. by apply IH, debounced_step. }
  destruct H as [[_ Htr] Hlen]. split; [exact Hlen |].
  intros t Ht. rewrite Forall_forall in Htr. by apply Htr.
Qed.

Lemma fire_due_nothing (now : Q) (v : View) :
  Forall (fun t => now < snd t) (timers v) -> fire_due now v = v.
Proof.
  intros H. unfold fire_due.
  assert (Hdue : List.filter (is_due now) (timers v) = []).
  { induction H as [| t l Ht _ IH]; [reflexivity |].
    cbn [List.filter]. destruct (is_due now t) eqn:E; [| exact IH].
    unfold is_due in E. apply Qle_bool_iff in E. lra. }
  assert (Hrest : List.filter (fun t => negb (is_due now t)) (timers v) = timers v).
  { clear Hdue. induction H as [| t l Ht _ IH]; [reflexivity |].
    cbn [List.filter]. destruct (is_due now t) eqn:E; cbn [negb];
      [| by rewrite IH].
    unfold is_due in E. apply Qle_bool_iff in E. lra. }
  rewrite Hdue, Hrest. by destruct v.
Qed.

Lemma resize_arrow_keeps_view (now : Q) (v : View) :
  projectionUpdates (resize_arrow now v) = projectionUpdates v /\
  surface (resize_arrow now v) = surface v /\
  camera_aspect (resize_arrow now v) = camera_aspect v /\
  parentElement (resize_arrow now v) = parentElement v.
Proof. done. Qed.

Lemma last_default_irrelevant {A} (l : list A) (a d d' : A) :
  List.last (a :: l) d = List.last (a :: l) d'.
Proof.
  revert a. induction l as [| b l IH]; intros a; [reflexivity |].
  change (List.last (b :: l) d = List.last (b :: l) d'). apply IH.
Qed.

(** A burst of resizes: the state after it. *)
Lemma burst_state (ts : list Q) (prev : Q) (v : View) :
  timers_tracked v ->
  (timers v = [] \/ exists id, timers v = [(id, prev + 100)]) ->
  burst_from prev ts ->
  let v' := fold_left resize_at ts v in
  timers_tracked v' /\
  projectionUpdates v' = projectionUpdates v /\
  surface v' = surface v /\
  parentElement v' = parentElement v /\
  (ts <> [] -> exists id, timers v' = [(id, List.last ts prev + 100)]).
Proof.
  revert prev v. induction ts as [| t ts IH]; intros prev v Htr Hpend Hb;
    cbv zeta.
  - simpl. split; [exact Htr |]. repeat split. intros H. by destruct H.
  - destruct Hb as (Hle & Hlt & Hb). cbn [fold_left].
    assert (Hquiet : fire_due t v = v).
    { apply fire_due_nothing. destruct Hpend as [-> | [id ->]];
        [apply Forall_nil_2 |].
      apply Forall_cons. split; [simpl; lra | apply Forall_nil_2]. }
    change (resize_at v t) with (resize_arrow t (fire_due t v)).
    rewrite Hquiet.
    destruct (resize_arrow_timers t v Htr) as (Ht1 & _ & Htr1).
    destruct (IH t (resize_arrow t v) Htr1
                (or_intror (ex_intro _ (nextTimer v) Ht1)) Hb)
      as (I1 & I2 & I3 & I4 & I5).
    split; [exact I1 |]. split; [exact I2 |]. split; [exact I3 |].
    split; [exact I4 |]. intros _.
    destruct ts as [| t' ts'].
    + simpl. eexists. exact Ht1.
    + destruct I5 as [id Hid]; [discriminate |]. exists id.
      rewrite Hid.
      change (List.last (t :: t' :: ts') prev) with (List.last (t' :: ts') prev).
      by rewrite (last_default_irrelevant ts' t' t prev).
Qed.

(** X13.  A burst of resizes is handled once, with the size at the end.
    If the resize events follow one another by less than 100 ms,
    [handleResize] does not run during the burst and one timeout is
    pending, due 100 ms after the last event; when that time has come it
    runs exactly once: the render surface and the camera's aspect are
    those of the container as it is then, and no timeout is left. *)
Theorem burst_is_handled_once (ts : list Q) (t0 now : Q) (v : View)
    (container : Container) :
  timers_tracked v -> timers v = [] -> ts <> [] -> burst_from t0 ts ->
  parentElement v = Some container ->
  List.last ts t0 + 100 <= now ->
  let during := fold_left resize_at ts v in
  let after := fire_due now during in
  projectionUpdates during = projectionUpdates v /\
  surface during = surface v /\
  (exists id, timers during = [(id, List.last ts t0 + 100)]) /\
  projectionUpdates after = S (projectionUpdates v) /\
  surface after = (clientWidth container, clientHeight container) /\
  camera_aspect after = clientWidth container / clientHeight container /\
  timers after = [].
Proof.
  intros Htr Hnone Hne Hb Hparent Hnow. cbv zeta.
  destruct (burst_state ts t0 v Htr (or_introl Hnone) Hb)
    as (_ & Hp & Hs & Hpar & Hpend).
  destruct (Hpend Hne) as [id Hid].
  split; [exact Hp |]. split; [exact Hs |]. split; [by exists id |].
  assert (Hdue : is_due now (id, List.last ts t0 + 100) = true).
  { unfold is_due. by apply Qle_bool_iff. }
  unfold fire_due. rewrite Hid. cbn [List.filter]. rewrite Hdue.
  cbn [negb fold_left]. unfold run_handleResize, handleResize.
  cbn [parentElement set_timers]. rewrite Hpar, Hparent.
  cbn [default projectionUpdates surface camera_aspect timers set_timers].
  rewrite Hp. done.
Qed.

Section AfterDispose.
Context {M : JSMath}.

Lemma dispatch_with_arrow (ls : list Callback) (now : Q) (v : View) :
  timers_tracked v -> ResizeArrow ∈ ls ->
  exists id, timers (dispatch_resize ls now v) = [(id, now + 100)].
Proof.
  intros Htr. unfold dispatch_resize.
  induction ls as [| cb ls IH] using rev_ind; intros Hin.
  - by apply elem_of_nil in Hin.
  - rewrite fold_left_app. cbn [fold_left].
    pose proof (dispatch_resize_tracked ls now v Htr) as Htr'.
    unfold dispatch_resize in Htr'.
    destruct (decide (cb = ResizeArrow)) as [-> | Hcb].
    + cbn [call_listener].
      destruct (resize_arrow_timers now _ Htr') as (-> & _). by eexists.
    + apply elem_of_app in Hin as [Hin | Hin];
        [| apply list_elem_of_singleton in Hin; congruence].
      destruct (IH Hin) as [id Hid]. exists id.
      destruct cb; cbn [call_listener]; try exact Hid; [| congruence].
      by destruct (run_handleResize_timers
        (fold_left (call_listener now) ls v)) as (-> & _).
Qed.

(** No method of the class registers [this.handleResize] itself. *)
Lemma run_never_registers_handleResize (w : World) (es : list Event) :
  Forall (fun cb => cb <> BoundHandleResize) (resizeListeners w) ->
  Forall (fun cb => cb <> BoundHandleResize) (resizeListeners (run w es)).
Proof.
  unfold run. revert w. induction es as [| e es IH]; intros w H0; [exact H0 |].
  cbn [fold_left]. apply IH. destruct e; cbn [step].
  - by rewrite start_resizeListeners.
  - exact H0.
  - rewrite dispose_resizeListeners. apply Forall_forall. intros cb Hcb.
    by apply list_elem_of_filter in Hcb as [Hcb _].
  - by rewrite refresh_resizeListeners.
  - exact H0.
Qed.

(** X14.  A disposed instance still answers resize events.  After any run
    that ends with [dispose], a 'resize' event of the window schedules a
    timeout of [handleResize] as before, and when it comes due
    [handleResize] runs: it resizes the render surface of the renderer
    that [dispose] released. *)
Theorem disposed_instance_still_resizes (o : Options.t) (t0 : Q)
    (ls : list Callback) (es : list Event) (v : View) (now later : Q)
    (container : Container) :
  timers_tracked v -> parentElement v = Some container ->
  Forall (fun cb => cb <> BoundHandleResize) ls ->
  now + 100 <= later ->
  let w := run (constructor o t0 ls) (es ++ [CallDispose]) in
  let v' := dispatch_resize (resizeListeners w) now v in
  (0 < rendererDisposed w)%nat /\
  (exists id, timers v' = [(id, now + 100)]) /\
  projectionUpdates (fire_due later v') = S (projectionUpdates v) /\
  surface (fire_due later v') = (clientWidth container, clientHeight container).
Proof.
  intros Htr Hparent Hls Hlater w v'.
  assert (Harrow : ResizeArrow ∈ resizeListeners w).
  { subst w. apply run_keeps_arrow.
    destruct (constructor_loop o t0 ls) as (_ & _ & _ & ->).
    apply elem_of_app. right. apply list_elem_of_singleton. reflexivity. }
  assert (Hnone : Forall (fun cb => cb <> BoundHandleResize) (resizeListeners w)).
  { subst w. apply run_never_registers_handleResize.
    destruct (constructor_loop o t0 ls) as (_ & _ & _ & ->).
    apply Forall_app. split; [exact Hls |].
    apply Forall_cons. split; [discriminate | apply Forall_nil_2]. }
  assert (Hdisp : (0 < rendererDisposed w)%nat).
  { subst w. unfold run. rewrite fold_left_app. cbn [fold_left step].
    destruct (dispose_scene_stores
      (fold_left step es (constructor o t0 ls))) as (_ & _ & -> & _). lia. }
  destruct (dispatch_with_arrow (resizeListeners w) now v Htr Harrow) as [id Hid].
  assert (Hkeep : projectionUpdates v' = projectionUpdates v /\
                  parentElement v' = parentElement v).
  { subst v'. unfold dispatch_resize. clear Hid Harrow.
    revert v Htr Hparent. induction Hnone as [| cb l Hcb _ IH]; intros v Htr Hparent;
      [done |].
    simpl. destruct cb; cbn [call_listener]; try (by apply IH); [congruence |].
    destruct (IH (resize_arrow now v)) as [-> ->];
      [by apply resize_arrow_timers | exact Hparent | done]. }
  destruct Hkeep as [Hp Hpar].
  split; [exact Hdisp |]. split; [by exists id |].
  assert (Hdue : is_due later (id, now + 100) = true).
  { unfold is_due. by apply Qle_bool_iff. }
  fold v' in Hid. clearbody v'.
  unfold fire_due. rewrite Hid. cbn [List.filter]. rewrite Hdue.
  cbn [negb fold_left]. unfold run_handleResize, handleResize.
  cbn [parentElement set_timers]. rewrite Hpar, Hparent.
  simpl. by rewrite Hp.
Qed.
End AfterDispose.

Lemma at_most_one_timeout_pending_witness :
  (List.length
     (timers
        (fold_left (view_step [ResizeArrow])
           [ResizeEvent 0; ResizeEvent 30; TimePasses 200; ResizeEvent 210]
           (new_View page 3 1))) <= 1)%nat.
Proof.
  exact (proj1 (at_most_one_timeout_pending page 3 1 [ResizeArrow]
    [ResizeEvent 0; ResizeEvent 30; TimePasses 200; ResizeEvent 210]
    ltac:(lia))).
Defined.

Lemma new_View_tracked :
  timers_tracked (new_View page 3 1).
Proof. split; [simpl; lia | apply Forall_nil_2]. Qed.

Lemma burst_is_handled_once_witness :
  let during := fold_left resize_at [0; 40; 90] (new_View page 3 1) in
  projectionUpdates during = 0%nat /\
  projectionUpdates (fire_due 190 during) = 1%nat.
Proof.
  cbv zeta.
  destruct (burst_is_handled_once [0; 40; 90] 0 190 (new_View page 3 1) page
    new_View_tracked eq_refl ltac:(discriminate)
    ltac:(simpl; repeat split; lra) eq_refl ltac:(simpl; lra))
    as (H1 & _ & _ & H2 & _).
  split; [exact H1 | exact H2].
Defined.

Lemma disposed_instance_still_resizes_witness :
  let w := run (M := approxMath) (constructor (M := approxMath) coarseOptions 0 [])
             ([CallStart] ++ [CallDispose]) in
  let v' := dispatch_resize (resizeListeners w) 500 (new_View page 3 1) in
  projectionUpdates (fire_due 600 v') = 1%nat.
Proof.
  cbv zeta.
  exact (proj1 (proj2 (proj2 (disposed_instance_still_resizes (M := approxMath)
    coarseOptions 0 [] [CallStart] (new_View page 3 1) 500 600 page
    new_View_tracked eq_refl (Forall_nil_2 _) ltac:(lra))))).
Defined.
